(** * A model of the cpp-compile-overhead scripts

    This development embeds the two scripts of the repository:
    - [scripts/analyze-file.py]: the measurement of one file (line counts of
      the preprocessed output, symbol classification of the [nm] dump, and the
      adaptive timing loop [measure_time]);
    - [scripts/execute-jobs.py]: the job loop that keys every job, reuses
      cached results and rewrites the cache file after every new result.

    External processes (the compiler, [nm], the analyzer subprocess) are
    modelled by their observable outputs, passed in as parameters.  Python
    floats are modelled by their exact values as rationals [Q], and the one
    float operation whose rounding matters, the division of the timing
    loop, is rounded to the nearest IEEE 754 double; Python strings, which here
    only ever hold compiler and [nm] output, as Rocq [string]s of ASCII
    characters. *)

From Stdlib Require Import String Ascii List ZArith QArith Permutation Sorted Lia.
From stdpp Require Import gmap strings list.

Import ListNotations.

(* ================================================================== *)
(** ** Timing: [measure_time] (analyze-file.py, lines 163-178) *)

Module Sampler.

(** [ts.sort()] on floats: any correct sort gives the same list, we use
    insertion sort on [Q]. *)
Fixpoint insert_sorted (x : Q) (l : list Q) : list Q :=
  match l with
  | [] => [x]
  | y :: l' => if Qle_bool x y then x :: y :: l' else y :: insert_sorted x l'
  end.

Fixpoint sort_q (l : list Q) : list Q :=
  match l with
  | [] => []
  | x :: l' => insert_sorted x (sort_q l')
  end.

(** Strict float comparison [a < b]. *)
Definition Qltb (a b : Q) : bool := negb (Qle_bool b a).

(** Python floats are IEEE 754 binary64 numbers.  The result of a float
    division of two finite floats is a finite double or, on overflow, an
    infinity (NaN needs an infinite or a [0/0] operand, and the latter
    raises). *)
Inductive float :=
| Finite (q : Q)
| PosInf
| NegInf.

(** Round half to even of [n / d], for [0 <= n] and [0 < d]. *)
Definition round_half_even (n d : Z) : Z :=
  let f := (n / d)%Z in
  match Z.compare (2 * (n mod d)) d with
  | Lt => f
  | Gt => (f + 1)%Z
  | Eq => if Z.even f then f else (f + 1)%Z
  end.

(** [2 ^ e <= n / d], for [0 < d]. *)
Definition pow2_le (e n d : Z) : bool :=
  if (0 <=? e)%Z then (2 ^ e * d <=? n)%Z else (d <=? n * 2 ^ (- e))%Z.

(** The double nearest to the positive rational [n / d] ([0 < n], [0 < d]):
    [e] is the exponent of [n / d] ([2 ^ e <= n / d < 2 ^ (e + 1)]), the
    significand has 53 bits, exponents below [-1022] give subnormals with the
    fixed unit [2 ^ -1074], and a rounded value of [2 ^ 1024] or more
    overflows to infinity. *)
Definition round_pos (n d : Z) : float :=
  let e0 := (Z.log2 n - Z.log2 d)%Z in
  let e := if pow2_le e0 n d then e0 else (e0 - 1)%Z in
  let k := (Z.max e (-1022) - 52)%Z in
  if (0 <=? k)%Z then
    let m := round_half_even n (d * 2 ^ k) in
    if (2 ^ 1024 <=? m * 2 ^ k)%Z then PosInf else Finite (inject_Z (m * 2 ^ k))
  else
    let m := round_half_even (n * 2 ^ (- k)) d in
    if (2 ^ (1024 - k) <=? m)%Z then PosInf else Finite (Qmake m (Z.to_pos (2 ^ (- k)))).

(** Rounding to nearest, ties to even, of an exact rational value. *)
Definition round_double (q : Q) : float :=
  match Qnum q with
  | Z0 => Finite 0
  | Zpos p => round_pos (Zpos p) (Zpos (Qden q))
  | Zneg p =>
      match round_pos (Zpos p) (Zpos (Qden q)) with
      | Finite r => Finite (- r)
      | PosInf => NegInf
      | NegInf => PosInf
      end
  end.

(** [a / b] on floats, for [b <> 0.0]: the exact quotient, rounded. *)
Definition float_div (a b : Q) : float := round_double (a / b).

(** The literal [1.01]: the double nearest to [101/100]. *)
Definition float_1_01 : float := round_double (101 # 100).

(** [x < y] on floats. *)
Definition float_lt (x y : float) : bool :=
  match x, y with
  | Finite a, Finite b => Qltb a b
  | NegInf, NegInf => false
  | NegInf, _ => true
  | Finite _, PosInf => true
  | _, _ => false
  end.

(** Result of the early-stop test [ts.sort(); if ts[3] / ts[0] < 1.01: break].
    The list is sorted in place, so the sorted list is what the loop keeps.
    A float division by [0.0] raises [ZeroDivisionError] in Python. *)
Inductive check_result :=
| Break (ts : list Q)
| Raise (ts : list Q)
| Continue (ts : list Q).

Definition ratio_check (ts : list Q) : check_result :=
  let ts := sort_q ts in
  let t0 := nth 0 ts 0%Q in
  let t3 := nth 3 ts 0%Q in
  if Qeq_bool t0 0 then Raise ts
  else if float_lt (float_div t3 t0) float_1_01 then Break ts
  else Continue ts.

(** How the [while True] loop ends: by [break] with the list [ts], by the
    exception of the division, or (only in the model) when the fuel runs
    out.  [dur n] is the duration measured by the [n]-th call (from 0) of
    [subprocess.call(sargs)]: the invocation is its sequence of durations
    (each the exact value of the double [t1 - t0]). *)
Inductive sample_outcome :=
| Stopped (ts : list Q)
| ZeroDivision (ts : list Q)
| OutOfFuel.

(** One iteration per unit of fuel:
<<
    while True:
        if len(ts) > 20: break
        if len(ts) >= 8:
            ts.sort()
            if ts[3] / ts[0] < 1.01: break
        t0 = time.perf_counter(); subprocess.call(sargs); t1 = ...
        ts.append(t1 - t0)
>> *)
Fixpoint sample_loop (dur : nat -> Q) (fuel : nat) (ts : list Q) : sample_outcome :=
  match fuel with
  | O => OutOfFuel
  | S fuel' =>
      if Nat.ltb 20 (length ts) then Stopped ts
      else if Nat.leb 8 (length ts) then
        match ratio_check ts with
        | Break ts1 => Stopped ts1
        | Raise ts1 => ZeroDivision ts1
        | Continue ts1 => sample_loop dur fuel' (ts1 ++ [dur (length ts1)])
        end
      else sample_loop dur fuel' (ts ++ [dur (length ts)])
  end.

(** The loop body runs at most 22 times from [ts = []] (see
    [sample_loop_fuel_mono] below: more fuel changes nothing). *)
Definition sample_fuel : nat := 22.

(** [measure_time]: after the loop, [ts.sort(); return ts[0]]; [None] is a
    raised exception. *)
Definition measure_time (dur : nat -> Q) : option Q :=
  match sample_loop dur sample_fuel [] with
  | Stopped ts => hd_error (sort_q ts)
  | _ => None
  end.

(** Number of timed executions of the invocation when the loop ends. *)
Definition executions (o : sample_outcome) : option nat :=
  match o with
  | Stopped ts | ZeroDivision ts => Some (length ts)
  | OutOfFuel => None
  end.

(** The durations observed in the first [n] calls. *)
Definition observed (dur : nat -> Q) (n : nat) : list Q := map dur (seq 0 n).

End Sampler.

(* ================================================================== *)
(** ** Characters and lines (Python [str] helpers) *)

Module Text.

Definition LF : ascii := Ascii.ascii_of_nat 10.
Definition CR : ascii := Ascii.ascii_of_nat 13.

Definition in_range (lo hi c : ascii) : bool :=
  Nat.leb (nat_of_ascii lo) (nat_of_ascii c) && Nat.leb (nat_of_ascii c) (nat_of_ascii hi).

(** [[0-9a-zA-Z]] *)
Definition is_alnum (c : ascii) : bool :=
  in_range "a" "z" c || in_range "A" "Z" c || in_range "0" "9" c.

(** [[a-zA-Z0-9_]], which is also [\w] on ASCII text. *)
Definition is_word (c : ascii) : bool := is_alnum c || Ascii.eqb c "_".

Definition is_space (c : ascii) : bool := Ascii.eqb c " ".

(** [f.readlines()] on a file opened in text mode: universal newlines turn
    ["\r\n"] and ["\r"] into ["\n"], and every line keeps its ["\n"]; a last
    line without a newline is a line too. *)
Fixpoint text_lines (s : string) : list string :=
  match s with
  | EmptyString => []
  | String c rest =>
      if Ascii.eqb c LF then String LF EmptyString :: text_lines rest
      else if Ascii.eqb c CR then
        String LF EmptyString ::
          text_lines (match rest with
                      | String d r => if Ascii.eqb d LF then r else rest
                      | EmptyString => rest
                      end)
      else match text_lines rest with
           | [] => [String c EmptyString]
           | l :: ls => String c l :: ls
           end
  end.

(** The line boundaries of [str.splitlines] among ASCII characters:
    [\n], [\r] (and [\r\n]), [\v], [\f], [\x1c], [\x1d], [\x1e]. *)
Definition is_line_boundary (c : ascii) : bool :=
  match nat_of_ascii c with
  | 10 | 11 | 12 | 13 | 28 | 29 | 30 => true
  | _ => false
  end.

(** [s.splitlines()]: lines without their boundaries, no final empty line. *)
Fixpoint splitlines (s : string) : list string :=
  match s with
  | EmptyString => []
  | String c rest =>
      if is_line_boundary c then
        EmptyString ::
          splitlines (if Ascii.eqb c CR then
                        match rest with
                        | String d r => if Ascii.eqb d LF then r else rest
                        | EmptyString => rest
                        end
                      else rest)
      else match splitlines rest with
           | [] => [String c EmptyString]
           | l :: ls => String c l :: ls
           end
  end.

(** Longest prefix of characters satisfying [p], and the rest. *)
Fixpoint span (p : ascii -> bool) (s : string) : string * string :=
  match s with
  | EmptyString => (EmptyString, EmptyString)
  | String c rest =>
      if p c then let (a, b) := span p rest in (String c a, b)
      else (EmptyString, s)
  end.

Definition has_char (p : ascii -> bool) (s : string) : bool :=
  existsb p (list_ascii_of_string s).

End Text.

(* ================================================================== *)
(** ** Line counts of the preprocessed target (analyze-file.py, 103-113) *)

Module LineCount.
Import Text.

(** [prog.search(l) is not None] for [prog = re.compile(r'[a-zA-Z0-9_]')]. *)
Definition has_word_char (l : string) : bool := has_char is_word l.

(** One iteration of [for l in f.readlines()] on the pair
    [(line_cnt_raw, line_cnt)]. *)
Definition count_step (acc : Z * Z) (l : string) : Z * Z :=
  let '(raw, cnt) := acc in
  ((raw + 1)%Z, if has_word_char l then (cnt + 1)%Z else cnt).

(** [(result["line_count_raw"], result["line_count"])] for the text of the
    preprocessed [main.o]. *)
Definition line_counts (out : string) : Z * Z :=
  let '(line_cnt_raw, line_cnt) := fold_left count_step (text_lines out) (0%Z, 0%Z) in
  ((line_cnt_raw - 2)%Z, (line_cnt - 1)%Z).

End LineCount.

(* ================================================================== *)
(** ** Symbol classification of the [nm] dump (analyze-file.py, 121-152) *)

Module Symbols.
Import Text.

(** [prog.match(l)] for [prog = re.compile(r'^[0-9a-zA-Z]* +(\w) (.+)$')],
    returning the groups [(st, sn)].  The match is unique: the leading
    [[0-9a-zA-Z]*] must stop where a space follows, so it takes the whole
    alphanumeric run; [ +] must be followed by a word character, so it takes
    all the spaces; then one word character, one space, and a non-empty rest
    without ["\n"] (the lines given to it come from [splitlines] and hold
    no ["\n"]). *)
Definition match_symbol_line (l : string) : option (ascii * string) :=
  let (_, r) := span is_alnum l in
  match r with
  | String sp r1 =>
      if is_space sp then
        let (_, r2) := span is_space r1 in
        match r2 with
        | String st (String sp2 sn) =>
            if is_word st && is_space sp2 && negb (String.eqb sn EmptyString)
               && negb (has_char (Ascii.eqb LF) sn)
            then Some (st, sn) else None
        | _ => None
        end
      else None
  | EmptyString => None
  end.

Inductive sym_class := Undefined | DataSym | CodeSym.

(** [if st in ['u','U'] ... elif st in ['b','B','r','R','d','D'] ...
    elif st in ['t','T'] ... else: assert False]. *)
Definition undefined_chars : list ascii := ["u"; "U"]%char.
Definition data_chars : list ascii := ["b"; "B"; "r"; "R"; "d"; "D"]%char.
Definition code_chars : list ascii := ["t"; "T"]%char.

Definition all_type_chars : list ascii := undefined_chars ++ data_chars ++ code_chars.

Definition classify (st : ascii) : option sym_class :=
  if existsb (Ascii.eqb st) undefined_chars then Some Undefined
  else if existsb (Ascii.eqb st) data_chars then Some DataSym
  else if existsb (Ascii.eqb st) code_chars then Some CodeSym
  else None.

Local Open Scope Z_scope.

Record sym_counts := mk_sym_counts {
  undef_sym_cnt : Z; undef_sym_size : Z;
  data_sym_cnt : Z; data_sym_size : Z;
  code_sym_cnt : Z; code_sym_size : Z }.

Definition zero_counts : sym_counts := mk_sym_counts 0 0 0 0 0 0.

Definition add_symbol (k : sym_class) (len : Z) (c : sym_counts) : sym_counts :=
  let '(mk_sym_counts uc us dc ds cc cs) := c in
  match k with
  | Undefined => mk_sym_counts (uc + 1) (us + len) dc ds cc cs
  | DataSym => mk_sym_counts uc us (dc + 1) (ds + len) cc cs
  | CodeSym => mk_sym_counts uc us dc ds (cc + 1) (cs + len)
  end.

(** The two failing assertions of the loop. *)
Inductive parse_error :=
| CouldNotParse (l : string)
| UnknownSymbolType (st : ascii).

Fixpoint classify_lines (acc : sym_counts) (ls : list string) : parse_error + sym_counts :=
  match ls with
  | [] => inr acc
  | l :: ls' =>
      match match_symbol_line l with
      | None => inl (CouldNotParse l)
      | Some (st, sn) =>
          match classify st with
          | None => inl (UnknownSymbolType st)
          | Some k => classify_lines (add_symbol k (Z.of_nat (String.length sn)) acc) ls'
          end
      end
  end.

(** Words used to state properties of the loop: whether the type character
    of a matched line is among [cs], and the length of its name. *)
Definition type_char_in (cs : list ascii) (l : string) : bool :=
  match match_symbol_line l with
  | Some (st, _) => existsb (Ascii.eqb st) cs
  | None => false
  end.

Definition name_length (l : string) : Z :=
  match match_symbol_line l with
  | Some (_, sn) => Z.of_nat (String.length sn)
  | None => 0
  end.

Definition class_count (cs : list ascii) (ls : list string) : Z :=
  Z.of_nat (length (List.filter (type_char_in cs) ls)).

Definition class_size (cs : list ascii) (ls : list string) : Z :=
  fold_right Z.add 0 (map name_length (List.filter (type_char_in cs) ls)).

(** The loop over [check_output(["nm", output_main]).decode().splitlines()]. *)
Definition symbol_stats (nm_out : string) : parse_error + sym_counts :=
  classify_lines zero_counts (splitlines nm_out).

(** All six counters are non-negative. *)
Definition counts_nonneg (c : sym_counts) : Prop :=
  0 <= undef_sym_cnt c /\ 0 <= undef_sym_size c /\ 0 <= data_sym_cnt c
  /\ 0 <= data_sym_size c /\ 0 <= code_sym_cnt c /\ 0 <= code_sym_size c.

End Symbols.

(* ================================================================== *)
(** ** One run of analyze-file.py (lines 101-184) *)

Module Engine.
Import Sampler.

(** The dictionary [result] printed by the script. *)
Record metrics := mk_metrics {
  line_count_raw : Z; line_count : Z; object_size : Z;
  undefined_symbol_count : Z; undefined_symbol_size : Z;
  data_symbol_count : Z; data_symbol_size : Z;
  code_symbol_count : Z; code_symbol_size : Z;
  object_size_base : Z;
  preprocessing_time : Q; compile_time : Q;
  preprocessing_time_base : Q; compile_time_base : Q }.

(** What the external processes give back for one run, after the argument
    checks of lines 40-58 have passed.  [None] is a non-zero exit status,
    on which [subprocess.run(..., check=True)] and [check_output] raise. *)
Record toolchain := mk_toolchain {
  preprocessed : option string;          (* text of main.o after [-E] *)
  object_bytes : option Z;               (* size of main.o after [-c] *)
  nm_dump : option string;               (* decoded output of [nm main.o] *)
  baseline_object_bytes : option Z;      (* size of main.o for baseline.cc *)
  preproc_durations : nat -> Q;          (* the four invocations timed *)
  compile_durations : nat -> Q;          (* by [measure_time] *)
  preproc_base_durations : nat -> Q;
  compile_base_durations : nat -> Q }.

Inductive engine_error :=
| ToolchainError
| ParseError (e : Symbols.parse_error)
| TimingError.

Definition analyze (tc : toolchain) : engine_error + metrics :=
  match preprocessed tc with
  | None => inl ToolchainError
  | Some out =>
    let '(lraw, lcnt) := LineCount.line_counts out in
    match object_bytes tc with
    | None => inl ToolchainError
    | Some osize =>
      match nm_dump tc with
      | None => inl ToolchainError
      | Some dump =>
        match Symbols.symbol_stats dump with
        | inl e => inl (ParseError e)
        | inr sc =>
          match baseline_object_bytes tc with
          | None => inl ToolchainError
          | Some bsize =>
            match measure_time (preproc_durations tc), measure_time (compile_durations tc),
                  measure_time (preproc_base_durations tc), measure_time (compile_base_durations tc) with
            | Some tp, Some tc', Some tpb, Some tcb =>
                inr (mk_metrics lraw lcnt osize
                       (Symbols.undef_sym_cnt sc) (Symbols.undef_sym_size sc)
                       (Symbols.data_sym_cnt sc) (Symbols.data_sym_size sc)
                       (Symbols.code_sym_cnt sc) (Symbols.code_sym_size sc)
                       bsize tp tc' tpb tcb)
            | _, _, _, _ => inl TimingError
            end
          end
        end
      end
    end
  end.

End Engine.

(* ================================================================== *)
(** ** The job loop of execute-jobs.py (lines 39-71) *)

Module Jobs.

(** A job of [jobs.json]: [file], [compiler] and the list [args]. *)
Record job := mk_job { file : string; compiler : string; args : list string }.

(** [id = [j["file"], j["compiler"]] + j["args"]; id = ":".join(id)] *)
Definition cache_key (j : job) : string :=
  String.concat ":" (file j :: compiler j :: args j).

(** [j["argstr"] = " ".join(j["args"])] *)
Definition argstr (j : job) : string := String.concat " " (args j).

Section Run.

(** The result dictionaries printed by the analyzer. *)
Context {M : Type}.

(** A job after [j["id"] = idx], [j["argstr"] = ...] and the merge of the
    result dictionary into it. *)
Record enriched := mk_enriched {
  ej_job : job; ej_id : nat; ej_argstr : string; ej_metrics : M }.

(** The observable effects of the loop, in order: a cache hit of job [i], a
    run of the analyzer for job [i], and the two effects of
    [with open(cache_file, "w") as f: json.dump(job_cache, f)]: the file is
    truncated, then the whole cache is written. *)
Inductive event :=
| EvHit (i : nat) (key : string)
| EvMeasure (i : nat) (key : string)
| EvTruncate
| EvWrite (m : gmap string M).

Record state := mk_state {
  job_cache : gmap string M;
  found_cached : nat;
  idx : nat;
  n_calls : nat;            (* analyzer subprocesses started so far *)
  events : list event;
  out : list enriched }.

(** [analyzer n j]: the parsed output of the [n]-th analyzer subprocess (from
    0) when it is run on job [j]; [None] when it exits non-zero, which makes
    [check_output] raise and ends the whole script. *)
Variable analyzer : nat -> job -> option M.

(** The body of [for j in jobs]. *)
Definition process_job (s : state) (j : job) : option state :=
  let key := cache_key j in
  match job_cache s !! key with
  | Some res =>
      Some (mk_state (job_cache s) (S (found_cached s)) (S (idx s)) (n_calls s)
              (events s ++ [EvHit (idx s) key])
              (out s ++ [mk_enriched j (idx s) (argstr j) res]))
  | None =>
      match analyzer (n_calls s) j with
      | None => None
      | Some res =>
          let c := <[key := res]> (job_cache s) in
          Some (mk_state c (found_cached s) (S (idx s)) (S (n_calls s))
                  (events s ++ [EvMeasure (idx s) key; EvTruncate; EvWrite c])
                  (out s ++ [mk_enriched j (idx s) (argstr j) res]))
      end
  end.

Fixpoint run_jobs (s : state) (js : list job) : option state :=
  match js with
  | [] => Some s
  | j :: js' =>
      match process_job s j with
      | None => None
      | Some s' => run_jobs s' js'
      end
  end.

Definition initial_state (cache0 : gmap string M) : state :=
  mk_state cache0 0 0 0 [] [].

(** The whole loop, from the cache read at start. *)
Definition execute_jobs (cache0 : gmap string M) (jobs : list job) : option state :=
  run_jobs (initial_state cache0) jobs.

End Run.

(** The jobs found in the cache, and the jobs sent to the analyzer, in the
    order of the effects [es]. *)
Definition hit_jobs {M : Type} (es : list (event (M:=M))) : list nat :=
  fold_right (fun e is => match e with EvHit i _ => i :: is | _ => is end) [] es.

Definition measured_jobs {M : Type} (es : list (event (M:=M))) : list nat :=
  fold_right (fun e is => match e with EvMeasure i _ => i :: is | _ => is end) [] es.

(** The cache file on disk. *)
Inductive cache_file {M : Type} :=
| NoCacheFile
| TruncatedFile
| CacheFile (m : gmap string M).
Arguments cache_file : clear implicits.

Definition apply_event {M : Type} (d : cache_file M) (e : event (M:=M)) : cache_file M :=
  match e with
  | EvTruncate => TruncatedFile
  | EvWrite m => CacheFile m
  | _ => d
  end.

(** The cache file after the effects [es], e.g. when the process is killed
    right after them. *)
Definition file_after {M : Type} (d : cache_file M) (es : list (event (M:=M))) : cache_file M :=
  fold_left apply_event es d.

(** Lines 28-30 at the next start: no file gives [{}]; [json.load] of an
    empty (truncated) file raises. *)
Definition load_cache {M : Type} (d : cache_file M) : option (gmap string M) :=
  match d with
  | NoCacheFile => Some ∅
  | TruncatedFile => None
  | CacheFile m => Some m
  end.

Definition measured_keys {M : Type} (es : list (event (M:=M))) : list string :=
  fold_right (fun e ks => match e with EvMeasure _ k => k :: ks | _ => ks end) [] es.

(** The results computed by the analyzer during the effects [es] that the
    next start does not find in the cache file. *)
Definition lost_after {M : Type} (d0 : cache_file M) (es : list (event (M:=M))) : list string :=
  match load_cache (file_after d0 es) with
  | None => measured_keys es
  | Some m => List.filter (fun k => match m !! k with None => true | Some _ => false end)
                     (measured_keys es)
  end.

(** Invariants of the loop, used in the proofs below. *)
Definition counters_consistent {M : Type} (s : state (M:=M)) : Prop :=
  found_cached s = length (hit_jobs (events s))
  /\ n_calls s = length (measured_jobs (events s))
  /\ length (out s) = idx s
  /\ forall k, In k (hit_jobs (events s) ++ measured_jobs (events s)) -> k < idx s.

Definition measured_in_cache {M : Type} (s : state (M:=M)) : Prop :=
  forall k, In k (measured_keys (events s)) -> job_cache s !! k <> None.

(** Every entry of the output list carries [" ".join(j["args"])] of its job. *)
Definition argstr_ok {M : Type} (l : list (enriched (M:=M))) : Prop :=
  forall e, In e l -> ej_argstr e = argstr (ej_job e).

(** Every entry of the output list carries the result stored in [c] under
    its job's key. *)
Definition out_in_cache {M : Type} (c : gmap string M) (l : list (enriched (M:=M))) : Prop :=
  forall e, In e l -> c !! cache_key (ej_job e) = Some (ej_metrics e).

(** Where the cache file stands after the effects of a state, started from
    [d0] and the cache [cache0] read from it: untouched while no result has
    been computed, else holding the whole current cache. *)
Definition file_state {M : Type} (d0 : cache_file M) (cache0 : gmap string M) (s : state (M:=M)) : Prop :=
  (measured_keys (events s) = [] /\ file_after d0 (events s) = d0 /\ job_cache s = cache0)
  \/ (measured_keys (events s) <> [] /\ file_after d0 (events s) = CacheFile (job_cache s)).

Definition measured_on_disk {M : Type} (d0 : cache_file M) (s : state (M:=M)) : Prop :=
  exists m, load_cache (file_after d0 (events s)) = Some m
    /\ forall k, In k (measured_keys (events s)) -> m !! k <> None.

End Jobs.

(* ================================================================== *)
(** ** Argument checks of analyze-file.py (lines 46-54) *)

Module Setup.

(** [str.rfind(c)] on the characters of a string: the index of the last
    [c], or [-1]. *)
Fixpoint rfind_from (c : ascii) (l : list ascii) (i acc : Z) : Z :=
  match l with
  | [] => acc
  | d :: l' => rfind_from c l' (i + 1)%Z (if Ascii.eqb d c then i else acc)
  end.

Definition rfind (c : ascii) (l : list ascii) : Z := rfind_from c l 0%Z (-1)%Z.

(** [os.path.splitext] on POSIX, i.e. [genericpath._splitext(p, "/", None, ".")]:
<<
    sepIndex = p.rfind(sep)
    dotIndex = p.rfind(extsep)
    if dotIndex > sepIndex:
        # skip all leading dots
        filenameIndex = sepIndex + 1
        while filenameIndex < dotIndex:
            if p[filenameIndex:filenameIndex+1] != extsep:
                return p[:dotIndex], p[dotIndex:]
            filenameIndex += 1
    return p, p[:0]
>>
    The [while] loop returns the split as soon as one character of
    [p[sepIndex+1:dotIndex]] is not ["."]. *)
Definition splitext (p : string) : string * string :=
  let l := list_ascii_of_string p in
  let sepIndex := rfind "/" l in
  let dotIndex := rfind "." l in
  if Z.ltb sepIndex dotIndex then
    let between := firstn (Z.to_nat (dotIndex - (sepIndex + 1)))
                          (skipn (Z.to_nat (sepIndex + 1)) l) in
    if existsb (fun c => negb (Ascii.eqb c ".")) between
    then (string_of_list_ascii (firstn (Z.to_nat dotIndex) l),
          string_of_list_ascii (skipn (Z.to_nat dotIndex) l))
    else (p, EmptyString)
  else (p, EmptyString).

(** [os.path.splitext(file)[-1]] and the three kinds of lines 48-50. *)
Definition extension (file : string) : string := snd (splitext file).

Definition is_source (file : string) : bool := String.prefix ".c" (extension file).
Definition is_header (file : string) : bool := String.prefix ".h" (extension file).
Definition is_system (file : string) : bool := String.eqb (extension file) "".

End Setup.

(* ================================================================== *)
(** ** Sums of symbol counters *)

Module SymbolSums.
Import Symbols.

(** The counters of two dumps added field by field. *)
Definition add_counts (a b : sym_counts) : sym_counts :=
  mk_sym_counts (undef_sym_cnt a + undef_sym_cnt b)%Z (undef_sym_size a + undef_sym_size b)%Z
    (data_sym_cnt a + data_sym_cnt b)%Z (data_sym_size a + data_sym_size b)%Z
    (code_sym_cnt a + code_sym_cnt b)%Z (code_sym_size a + code_sym_size b)%Z.

End SymbolSums.

(* ================================================================== *)
(** ** Facts about the timing loop *)

Module SamplerFacts.
Import Sampler.

#[local] Instance Qle_trans_inst : Transitive Qle := Qle_trans.

Lemma insert_sorted_perm (x : Q) (l : list Q) :
  Permutation (insert_sorted x l) (x :: l).
Proof.
  induction l as [|y l IH]; simpl; [reflexivity|].
  destruct (Qle_bool x y); [reflexivity|].
  rewrite IH. apply perm_swap.
Qed.

Lemma sort_q_perm (l : list Q) : Permutation (sort_q l) l.
Proof.
  induction l as [|x l IH]; simpl; [reflexivity|].
  rewrite insert_sorted_perm. now apply perm_skip.
Qed.

Lemma length_sort_q (l : list Q) : length (sort_q l) = length l.
Proof. apply Permutation_length, sort_q_perm. Qed.

Lemma insert_sorted_sorted (x : Q) (l : list Q) :
  Sorted Qle l -> Sorted Qle (insert_sorted x l).
Proof.
  induction 1 as [|y l Hs IH Hhd]; simpl.
  - repeat constructor.
  - destruct (Qle_bool x y) eqn:E.
    + apply Qle_bool_iff in E. constructor; [now constructor|]. now constructor.
    + assert (Hyx : (y <= x)%Q).
      { apply Qlt_le_weak, Qnot_le_lt. intro H. apply Qle_bool_iff in H. congruence. }
      constructor; [exact IH|].
      destruct l as [|z l]; simpl; [now constructor|].
      inversion Hhd; subst.
      destruct (Qle_bool x z); now constructor.
Qed.

Lemma sort_q_sorted (l : list Q) : Sorted Qle (sort_q l).
Proof.
  induction l; simpl; [constructor|]. now apply insert_sorted_sorted.
Qed.

(** The head of the sorted list is below every element. *)
Lemma sort_q_head_min (l : list Q) (v : Q) :
  hd_error (sort_q l) = Some v -> In v l /\ forall x, In x l -> (v <= x)%Q.
Proof.
  intros H.
  pose proof (sort_q_sorted l) as Hs. pose proof (sort_q_perm l) as Hp.
  destruct (sort_q l) as [|w r] eqn:E; [discriminate|].
  simpl in H. injection H as <-. split.
  - apply (Permutation_in _ Hp). now left.
  - intros x Hx. apply (Permutation_in _ (Permutation_sym Hp)) in Hx.
    destruct Hx as [<-|Hx]; [apply Qle_refl|].
    apply Sorted_extends in Hs; [|exact Qle_trans_inst].
    rewrite List.Forall_forall in Hs. now apply Hs.
Qed.

Lemma observed_S (dur : nat -> Q) (n : nat) :
  observed dur (S n) = observed dur n ++ [dur n].
Proof. unfold observed. now rewrite seq_S, map_app. Qed.

(** The loop invariant: the list holds a permutation of the durations
    observed so far, and the loop stops with 8 to 21 of them. *)
Lemma sample_loop_bounds (dur : nat -> Q) (fuel : nat) (ts : list Q) :
  length ts <= 21 -> 22 <= fuel + length ts ->
  Permutation ts (observed dur (length ts)) ->
  exists ts',
    (sample_loop dur fuel ts = Stopped ts' \/ sample_loop dur fuel ts = ZeroDivision ts')
    /\ length ts <= length ts' <= 21 /\ 8 <= length ts'
    /\ Permutation ts' (observed dur (length ts')).
Proof.
  revert ts. induction fuel as [|fuel IH]; intros ts Hlen Hfuel Hperm; [simpl in *; lia|].
  cbn [sample_loop].
  destruct (Nat.ltb_spec 20 (length ts)).
  { exists ts. split; [now left|]. repeat split; lia || assumption. }
  destruct (Nat.leb_spec 8 (length ts)).
  - unfold ratio_check.
    assert (Hp : Permutation (sort_q ts) (observed dur (length (sort_q ts)))).
    { rewrite length_sort_q. now rewrite sort_q_perm. }
    destruct (Qeq_bool _ _).
    { exists (sort_q ts). split; [simpl; now right|]. rewrite length_sort_q in *. repeat split; lia || assumption. }
    destruct (float_lt _ _).
    { exists (sort_q ts). split; [simpl; now left|]. rewrite length_sort_q in *. repeat split; lia || assumption. }
    destruct (IH (sort_q ts ++ [dur (length (sort_q ts))])) as (ts' & Hres & Hb & H8 & Hp');
      rewrite ?length_app, ?length_sort_q in *; simpl in *; try lia.
    { rewrite Nat.add_1_r, observed_S. now apply Permutation_app_tail. }
    exists ts'. repeat split; assumption || lia.
  - destruct (IH (ts ++ [dur (length ts)])) as (ts' & Hres & Hb & H8 & Hp');
      rewrite ?length_app in *; simpl in *; try lia.
    { rewrite Nat.add_1_r, observed_S. now apply Permutation_app_tail. }
    exists ts'. repeat split; assumption || lia.
Qed.

(** Fuel is only a device of the model: once the loop has ended, more fuel
    gives the same outcome. *)
Lemma sample_loop_fuel_mono (dur : nat -> Q) (f f' : nat) (ts : list Q) :
  f <= f' -> sample_loop dur f ts <> OutOfFuel ->
  sample_loop dur f' ts = sample_loop dur f ts.
Proof.
  revert f' ts. induction f as [|f IH]; intros f' ts Hle Hne; [now simpl in Hne|].
  destruct f' as [|f']; [lia|].
  cbn [sample_loop] in *. destruct (Nat.ltb 20 (length ts)); [reflexivity|].
  destruct (Nat.leb 8 (length ts)).
  - destruct (ratio_check ts); try reflexivity. apply IH; [lia|exact Hne].
  - apply IH; [lia|exact Hne].
Qed.

Lemma sample_loop_ends (dur : nat -> Q) :
  exists ts,
    (sample_loop dur sample_fuel [] = Stopped ts \/ sample_loop dur sample_fuel [] = ZeroDivision ts)
    /\ 8 <= length ts <= 21 /\ Permutation ts (observed dur (length ts)).
Proof.
  destruct (sample_loop_bounds dur sample_fuel []) as (ts & H & Hb & H8 & Hp);
    simpl; try lia; [constructor|].
  exists ts. repeat split; assumption || lia.
Qed.

End SamplerFacts.

(* ================================================================== *)
(** ** Claims on the timing loop *)

Module SamplerClaims.
Import Sampler SamplerFacts.

(** C1 (the bound of 20 executions): the loop always ends, but it tests
    [len(ts) > 20] before each run, so an invocation whose runs never agree
    within 1% is executed 21 times: with durations 1, 2, 3, ... the loop
    stops with 21 samples and returns 1. *)
Lemma measure_time_runs_21_times :
  executions (sample_loop (fun n => inject_Z (Z.of_nat n + 1)) sample_fuel []) = Some 21
  /\ measure_time (fun n => inject_Z (Z.of_nat n + 1)) = Some 1%Q.
Proof. split; vm_compute; reflexivity. Qed.

(** C10: whatever the durations, the loop ends (by [break] or by the
    exception of the ratio test) after at least 8 timed executions. *)
Theorem sampler_at_least_8_runs (dur : nat -> Q) :
  exists n, executions (sample_loop dur sample_fuel []) = Some n /\ 8 <= n.
Proof.
  destruct (sample_loop_ends dur) as (ts & [H|H] & Hb & _);
    rewrite H; exists (length ts); simpl; split; reflexivity || lia.
Qed.

(** C7 (the early stop tests a float division): with durations 3.0, 3.0,
    3.0 and then 3.03 (the double nearest to it), the 8 first samples have
    an exact ratio [ts[3] / ts[0]] below 1.01, but the float division
    [3.03 / 3.0] rounds to the double [1.01] itself, the test [< 1.01]
    fails and the invocation is run 21 times. *)
Lemma exact_ratio_below_1_01_no_stop :
  let dur := fun i : nat => if Nat.ltb i 3 then 3%Q else (6822953435466301 # 2251799813685248)%Q in
  (nth 3 (sort_q (observed dur 8)) 0%Q / nth 0 (sort_q (observed dur 8)) 0%Q < 101 # 100)%Q
  /\ float_div (nth 3 (sort_q (observed dur 8)) 0%Q) (nth 0 (sort_q (observed dur 8)) 0%Q) = float_1_01
  /\ executions (sample_loop dur sample_fuel []) = Some 21.
Proof. split; [|split]; vm_compute; reflexivity. Qed.

(** C7, as the code computes it: at any point where the list holds at
    least 8 samples whose sorted 4th element divided by the sorted 1st, a
    float division, is below the float [1.01], the loop runs the invocation
    no more; and the value [measure_time] returns is the minimum of all
    durations observed. *)
Theorem sampler_early_stop_and_min (dur : nat -> Q) :
  (forall (fuel : nat) (ts : list Q),
      8 <= length ts ->
      ~ (nth 0 (sort_q ts) 0 == 0)%Q ->
      float_lt (float_div (nth 3 (sort_q ts) 0%Q) (nth 0 (sort_q ts) 0%Q)) float_1_01 = true ->
      executions (sample_loop dur (S fuel) ts) = Some (length ts))
  /\ (forall v : Q, measure_time dur = Some v ->
      exists n, executions (sample_loop dur sample_fuel []) = Some n
        /\ In v (observed dur n) /\ forall x, In x (observed dur n) -> (v <= x)%Q).
Proof.
  split.
  - intros fuel ts H8 Hnz Hlt. cbn [sample_loop].
    destruct (Nat.ltb_spec 20 (length ts)); [reflexivity|].
    destruct (Nat.leb_spec 8 (length ts)); [|lia].
    unfold ratio_check.
    assert (E1 : Qeq_bool (nth 0 (sort_q ts) 0%Q) 0 = false).
    { destruct (Qeq_bool _ _) eqn:E; [|reflexivity]. apply Qeq_bool_iff in E. contradiction. }
    rewrite E1, Hlt. simpl. now rewrite length_sort_q.
  - intros v Hv. unfold measure_time in Hv.
    destruct (sample_loop_ends dur) as (ts & [H|H] & Hb & Hp); rewrite H in Hv; [|discriminate].
    apply sort_q_head_min in Hv as [Hin Hmin].
    exists (length ts). rewrite H. split; [reflexivity|]. split.
    + now apply (Permutation_in _ Hp).
    + intros x Hx. apply Hmin. now apply (Permutation_in _ (Permutation_sym Hp)).
Qed.

Lemma sampler_early_stop_and_min_witness :
  executions (sample_loop (fun _ => 1%Q) 1 (repeat 1%Q 8)) = Some (length (repeat 1%Q 8))
  /\ exists n, executions (sample_loop (fun _ => 1%Q) sample_fuel []) = Some n
       /\ In 1%Q (observed (fun _ => 1%Q) n)
       /\ forall x, In x (observed (fun _ => 1%Q) n) -> (1 <= x)%Q.
Proof.
  split.
  - apply (proj1 (sampler_early_stop_and_min (fun _ => 1%Q)) 0 (repeat 1%Q 8)).
    + simpl. lia.
    + vm_compute. discriminate.
    + vm_compute. reflexivity.
  - apply (proj2 (sampler_early_stop_and_min (fun _ => 1%Q)) 1%Q).
    vm_compute. reflexivity.
Defined.

End SamplerClaims.

(* ================================================================== *)
(** ** Line counts *)

Module LineCountFacts.
Import Text LineCount.

Lemma fold_count_step (ls : list string) (raw cnt : Z) :
  fold_left count_step ls (raw, cnt) =
  ((raw + Z.of_nat (length ls))%Z,
   (cnt + Z.of_nat (length (List.filter has_word_char ls)))%Z).
Proof.
  revert raw cnt. induction ls as [|l ls IH]; intros raw cnt; simpl.
  - f_equal; lia.
  - rewrite IH. destruct (has_word_char l); simpl; f_equal; lia.
Qed.

Lemma line_counts_spec (out : string) :
  line_counts out =
  ((Z.of_nat (length (text_lines out)) - 2)%Z,
   (Z.of_nat (length (List.filter has_word_char (text_lines out))) - 1)%Z).
Proof. unfold line_counts. now rewrite fold_count_step. Qed.

End LineCountFacts.

(* ================================================================== *)
(** ** Symbol classification *)

Module SymbolFacts.
Import Text Symbols.
Local Open Scope Z_scope.

Lemma add_symbol_nonneg (k : sym_class) (len : Z) (c : sym_counts) :
  0 <= len -> counts_nonneg c -> counts_nonneg (add_symbol k len c).
Proof.
  destruct c as [uc us dc ds cc cs]; unfold counts_nonneg; simpl.
  intros Hl H. destruct k; simpl; lia.
Qed.

Lemma classify_lines_nonneg (ls : list string) (acc r : sym_counts) :
  counts_nonneg acc -> classify_lines acc ls = inr r -> counts_nonneg r.
Proof.
  revert acc. induction ls as [|l ls IH]; intros acc Hacc H; simpl in H.
  - congruence.
  - destruct (match_symbol_line l) as [[st sn]|]; [|discriminate].
    destruct (classify st) as [k|]; [|discriminate].
    eapply IH; [|exact H]. apply add_symbol_nonneg; [lia|exact Hacc].
Qed.

Lemma symbol_stats_nonneg (out : string) (r : sym_counts) :
  symbol_stats out = inr r -> counts_nonneg r.
Proof.
  apply classify_lines_nonneg. unfold counts_nonneg; simpl; lia.
Qed.



Lemma type_char_in_matched (cs : list ascii) (l : string) (st : ascii) (sn : string) :
  match_symbol_line l = Some (st, sn) -> type_char_in cs l = existsb (Ascii.eqb st) cs.
Proof. intros H. unfold type_char_in. now rewrite H. Qed.

Lemma name_length_matched (l : string) (st : ascii) (sn : string) :
  match_symbol_line l = Some (st, sn) -> name_length l = Z.of_nat (String.length sn).
Proof. intros H. unfold name_length. now rewrite H. Qed.

Lemma class_count_cons (cs : list ascii) (l : string) (ls : list string) :
  class_count cs (l :: ls) = (if type_char_in cs l then 1 else 0) + class_count cs ls.
Proof. unfold class_count. simpl. destruct (type_char_in cs l); simpl; lia. Qed.

Lemma class_size_cons (cs : list ascii) (l : string) (ls : list string) :
  class_size cs (l :: ls) = (if type_char_in cs l then name_length l else 0) + class_size cs ls.
Proof. unfold class_size. simpl. destruct (type_char_in cs l); simpl; lia. Qed.

Lemma classify_none (st : ascii) : ~ In st all_type_chars -> classify st = None.
Proof.
  intros Hn. unfold classify.
  destruct (existsb (Ascii.eqb st) undefined_chars) eqn:E1;
    [apply existsb_exists in E1 as (x & Hx & Hq); apply Ascii.eqb_eq in Hq; subst;
     exfalso; apply Hn; unfold all_type_chars; rewrite !in_app_iff; tauto|].
  destruct (existsb (Ascii.eqb st) data_chars) eqn:E2;
    [apply existsb_exists in E2 as (x & Hx & Hq); apply Ascii.eqb_eq in Hq; subst;
     exfalso; apply Hn; unfold all_type_chars; rewrite !in_app_iff; tauto|].
  destruct (existsb (Ascii.eqb st) code_chars) eqn:E3;
    [apply existsb_exists in E3 as (x & Hx & Hq); apply Ascii.eqb_eq in Hq; subst;
     exfalso; apply Hn; unfold all_type_chars; rewrite !in_app_iff; tauto|].
  reflexivity.
Qed.

(** With every line matched and of a known type, the loop adds to each
    counter the number of lines of its class and their name lengths. *)
Lemma classify_lines_counts (ls : list string) (acc : sym_counts) :
  (forall l, In l ls -> exists st sn, match_symbol_line l = Some (st, sn) /\ In st all_type_chars) ->
  classify_lines acc ls =
  inr (mk_sym_counts
         (undef_sym_cnt acc + class_count undefined_chars ls)
         (undef_sym_size acc + class_size undefined_chars ls)
         (data_sym_cnt acc + class_count data_chars ls)
         (data_sym_size acc + class_size data_chars ls)
         (code_sym_cnt acc + class_count code_chars ls)
         (code_sym_size acc + class_size code_chars ls)).
Proof.
  revert acc. induction ls as [|l ls IH]; intros acc Hall.
  - destruct acc; unfold class_count, class_size; simpl; f_equal; f_equal; lia.
  - destruct (Hall l (or_introl eq_refl)) as (st & sn & Hm & Hin).
    assert (Hrest : forall l', In l' ls -> exists st sn, match_symbol_line l' = Some (st, sn) /\ In st all_type_chars)
      by (intros; apply Hall; now right).
    rewrite !class_count_cons, !class_size_cons, !(type_char_in_matched _ _ _ _ Hm),
      (name_length_matched _ _ _ Hm).
    cbn [classify_lines]. rewrite Hm.
    destruct acc as [uc us dc ds cc cs].
    unfold all_type_chars, undefined_chars, data_chars, code_chars in Hin. simpl in Hin.
    repeat (destruct Hin as [<-|Hin];
            [cbn -[class_count class_size]; rewrite IH by exact Hrest;
             cbn -[class_count class_size]; f_equal; f_equal; lia|]);
      contradiction.
Qed.

(** A line that does not match, or has a type outside the three classes,
    makes the loop fail. *)
Lemma classify_lines_fails (ls : list string) (acc : sym_counts) (l : string) :
  In l ls ->
  (match_symbol_line l = None
   \/ exists st sn, match_symbol_line l = Some (st, sn) /\ ~ In st all_type_chars) ->
  exists e, classify_lines acc ls = inl e.
Proof.
  revert acc. induction ls as [|l' ls IH]; intros acc Hl Hbad; [destruct Hl|].
  simpl. destruct Hl as [<-|Hl].
  - destruct Hbad as [Hn | (st & sn & Hm & Hn)].
    + rewrite Hn. eauto.
    + rewrite Hm, (classify_none st Hn). eauto.
  - destruct (match_symbol_line l') as [[st sn]|]; [|eauto].
    destruct (classify st) as [k|]; [|eauto].
    now apply IH.
Qed.

End SymbolFacts.

(* ================================================================== *)
(** ** What a successful run of the analyzer reports *)

Module EngineFacts.
Import Text LineCount Symbols Engine.

Lemma analyze_ok (tc : toolchain) (m : metrics) :
  analyze tc = inr m ->
  exists out dump sc,
    preprocessed tc = Some out /\ nm_dump tc = Some dump /\ symbol_stats dump = inr sc
    /\ line_count_raw m = fst (line_counts out) /\ line_count m = snd (line_counts out)
    /\ undefined_symbol_count m = undef_sym_cnt sc /\ undefined_symbol_size m = undef_sym_size sc
    /\ data_symbol_count m = data_sym_cnt sc /\ data_symbol_size m = data_sym_size sc
    /\ code_symbol_count m = code_sym_cnt sc /\ code_symbol_size m = code_sym_size sc.
Proof.
  unfold analyze. intros H.
  destruct (preprocessed tc) as [out|]; [|discriminate].
  destruct (line_counts out) as [lraw lcnt] eqn:El.
  destruct (object_bytes tc) as [osize|]; [|discriminate].
  destruct (nm_dump tc) as [dump|]; [|discriminate].
  destruct (symbol_stats dump) as [e|sc] eqn:Es; [discriminate|].
  destruct (baseline_object_bytes tc) as [bsize|]; [|discriminate].
  destruct (Sampler.measure_time (preproc_durations tc)); [|discriminate].
  destruct (Sampler.measure_time (compile_durations tc)); [|discriminate].
  destruct (Sampler.measure_time (preproc_base_durations tc)); [|discriminate].
  destruct (Sampler.measure_time (compile_base_durations tc)); [|discriminate].
  injection H as <-. exists out, dump, sc. rewrite El. simpl. repeat split; assumption || reflexivity.
Qed.

(** Once the preprocessed output and the object are there, the result of
    the symbol loop decides: a parse failure is reported as [ParseError]. *)
Lemma analyze_parse_error (tc : toolchain) (dump : string) (e : parse_error) :
  preprocessed tc <> None -> object_bytes tc <> None ->
  nm_dump tc = Some dump -> symbol_stats dump = inl e ->
  analyze tc = inl (ParseError e).
Proof.
  unfold analyze. intros Hp Ho Hn Hs.
  destruct (preprocessed tc) as [out|]; [|congruence].
  destruct (line_counts out) as [lraw lcnt].
  destruct (object_bytes tc) as [osize|]; [|congruence].
  now rewrite Hn, Hs.
Qed.

End EngineFacts.

(* ================================================================== *)
(** ** Claims on the measurement of one file *)

Module MeasureClaims.
Import Text LineCount Symbols Engine LineCountFacts SymbolFacts EngineFacts.
Local Open Scope Z_scope.

(** C2 (as stated, refuted): only [line_count_raw] loses two lines; the
    count of lines with a word character loses one ([line_cnt - 1], commented
    [# int main()]).  On a two-line output whose two lines both hold word
    characters, [line_count] is 1, not 2 - 2 = 0. *)
Lemma line_count_not_minus_two :
  let out := "int x;" +:+ String LF ("int main() { return 0; }" +:+ String LF EmptyString) in
  snd (line_counts out) = 1
  /\ snd (line_counts out) <> Z.of_nat (length (List.filter has_word_char (text_lines out))) - 2.
Proof. vm_compute. split; [reflexivity|discriminate]. Qed.

(** C2 (amended): in the reported record, [line_count_raw] is the number of
    lines of the preprocessed output minus 2, and [line_count] the number
    of its lines holding a character of [[a-zA-Z0-9_]] minus 1. *)
Theorem reported_line_counts (tc : toolchain) (m : metrics) (out : string) :
  preprocessed tc = Some out -> analyze tc = inr m ->
  line_count_raw m = Z.of_nat (length (text_lines out)) - 2
  /\ line_count m = Z.of_nat (length (List.filter has_word_char (text_lines out))) - 1.
Proof.
  intros Hp Ha. destruct (analyze_ok tc m Ha) as (out' & _ & _ & Hp' & _ & _ & Hraw & Hcnt & _).
  rewrite Hp in Hp'. injection Hp' as <-.
  rewrite Hraw, Hcnt, line_counts_spec. split; reflexivity.
Qed.

Lemma reported_line_counts_witness :
  let out := "int x;" +:+ String LF "int main() { return 0; }" in
  let tc := mk_toolchain (Some out) (Some 1000) (Some "0000 T main") (Some 900)
              (fun _ => 1%Q) (fun _ => 1%Q) (fun _ => 1%Q) (fun _ => 1%Q) in
  let m := mk_metrics 0 1 1000 0 0 0 0 1 4 900 1 1 1 1 in
  preprocessed tc = Some out /\ analyze tc = inr m
  /\ line_count_raw m = Z.of_nat (length (text_lines out)) - 2
  /\ line_count m = Z.of_nat (length (List.filter has_word_char (text_lines out))) - 1.
Proof.
  intros out tc m. split; [reflexivity|]. split; [subst out tc m; vm_compute; reflexivity|].
  apply (reported_line_counts tc); subst out tc m; [reflexivity|vm_compute; reflexivity].
Defined.

(** C9 (as stated, refuted): the line counts are differences and go below
    zero: an empty preprocessed output gives [line_count_raw = -2] in a
    successful run. *)
Lemma line_count_raw_negative :
  exists m, analyze (mk_toolchain (Some EmptyString) (Some 1000) (Some EmptyString) (Some 900)
                       (fun _ => 1%Q) (fun _ => 1%Q) (fun _ => 1%Q) (fun _ => 1%Q)) = inr m
            /\ line_count_raw m = -2 /\ line_count m = -1.
Proof. eexists. split; [vm_compute; reflexivity|]. split; reflexivity. Qed.

(** C9 (amended): in a successful run the three symbol counts are
    non-negative, [line_count_raw] is non-negative exactly when the
    preprocessed output has at least 2 lines, and [line_count] exactly when
    at least one of its lines holds a character of [[a-zA-Z0-9_]]. *)
Theorem reported_counts_sign (tc : toolchain) (m : metrics) :
  analyze tc = inr m ->
  0 <= undefined_symbol_count m /\ 0 <= data_symbol_count m /\ 0 <= code_symbol_count m
  /\ exists out, preprocessed tc = Some out
     /\ (0 <= line_count_raw m <-> (2 <= length (text_lines out))%nat)
     /\ (0 <= line_count m <-> (1 <= length (List.filter has_word_char (text_lines out)))%nat).
Proof.
  intros Ha.
  destruct (analyze_ok tc m Ha)
    as (out & dump & sc & Hp & _ & Hs & Hraw & Hcnt & Hu & _ & Hd & _ & Hc & _).
  destruct (symbol_stats_nonneg dump sc Hs) as (Hu0 & _ & Hd0 & _ & Hc0 & _).
  rewrite Hu, Hd, Hc. repeat split; try assumption.
  exists out. rewrite Hraw, Hcnt, line_counts_spec. simpl. split; [exact Hp|]. split; split; lia.
Qed.

Lemma reported_counts_sign_witness :
  let tc := mk_toolchain (Some EmptyString) (Some 1000) (Some EmptyString) (Some 900)
              (fun _ => 1%Q) (fun _ => 1%Q) (fun _ => 1%Q) (fun _ => 1%Q) in
  let m := mk_metrics (-2) (-1) 1000 0 0 0 0 0 0 900 1 1 1 1 in
  analyze tc = inr m
  /\ 0 <= undefined_symbol_count m /\ 0 <= data_symbol_count m /\ 0 <= code_symbol_count m
  /\ exists out, preprocessed tc = Some out
     /\ (0 <= line_count_raw m <-> (2 <= length (text_lines out))%nat)
     /\ (0 <= line_count m <-> (1 <= length (List.filter has_word_char (text_lines out)))%nat).
Proof.
  intros tc m. split; [subst tc m; vm_compute; reflexivity|].
  apply (reported_counts_sign tc). subst tc m. vm_compute. reflexivity.
Defined.

(** C5: when every line of the dump matches [<value> <type> <name>] with a
    type among u U b B r R d D t T, the loop succeeds, and each class count
    is the number of lines of that class, each size the sum of the lengths
    of their names; a successful run reports exactly these numbers. *)
Theorem symbol_counts_by_class (out : string) :
  (forall l, In l (splitlines out) ->
     exists st sn, match_symbol_line l = Some (st, sn) /\ In st all_type_chars) ->
  symbol_stats out =
    inr (mk_sym_counts
           (class_count undefined_chars (splitlines out)) (class_size undefined_chars (splitlines out))
           (class_count data_chars (splitlines out)) (class_size data_chars (splitlines out))
           (class_count code_chars (splitlines out)) (class_size code_chars (splitlines out)))
  /\ forall tc m, nm_dump tc = Some out -> analyze tc = inr m ->
     undefined_symbol_count m = class_count undefined_chars (splitlines out)
     /\ undefined_symbol_size m = class_size undefined_chars (splitlines out)
     /\ data_symbol_count m = class_count data_chars (splitlines out)
     /\ data_symbol_size m = class_size data_chars (splitlines out)
     /\ code_symbol_count m = class_count code_chars (splitlines out)
     /\ code_symbol_size m = class_size code_chars (splitlines out).
Proof.
  intros Hall.
  assert (Hs : symbol_stats out =
    inr (mk_sym_counts
           (class_count undefined_chars (splitlines out)) (class_size undefined_chars (splitlines out))
           (class_count data_chars (splitlines out)) (class_size data_chars (splitlines out))
           (class_count code_chars (splitlines out)) (class_size code_chars (splitlines out)))).
  { unfold symbol_stats. rewrite (classify_lines_counts _ zero_counts Hall). reflexivity. }
  split; [exact Hs|].
  intros tc m Hn Ha.
  destruct (analyze_ok tc m Ha)
    as (out' & dump & sc & _ & Hn' & Hs' & _ & _ & Hu & Hus & Hd & Hds & Hc & Hcs).
  rewrite Hn in Hn'. injection Hn' as <-. rewrite Hs in Hs'. injection Hs' as <-.
  rewrite Hu, Hus, Hd, Hds, Hc, Hcs. repeat split; reflexivity.
Qed.

Lemma symbol_counts_by_class_witness :
  let out := "0000 T foo" +:+ String LF ("0000 D bar" +:+ String LF "                 U baz") in
  (forall l, In l (splitlines out) ->
     exists st sn, match_symbol_line l = Some (st, sn) /\ In st all_type_chars)
  /\ symbol_stats out = inr (mk_sym_counts 1 3 1 3 1 3).
Proof.
  intros out.
  assert (H : forall l, In l (splitlines out) ->
             exists st sn, match_symbol_line l = Some (st, sn) /\ In st all_type_chars).
  { intros l Hl. subst out. vm_compute in Hl.
    destruct Hl as [<-|[<-|[<-|[]]]]; (eexists; eexists; split; [vm_compute; reflexivity|]);
      vm_compute; tauto. }
  split; [exact H|].
  rewrite (proj1 (symbol_counts_by_class out H)). subst out. vm_compute. reflexivity.
Defined.

(** C6: a line of the dump that does not match, or whose type character is
    outside the three classes, makes the loop fail (the [assert]s); the run
    then ends with [ParseError] once preprocessing and compilation have
    succeeded, and with an error in any case. *)
Theorem symbol_parse_failure (out l : string) :
  In l (splitlines out) ->
  (match_symbol_line l = None
   \/ exists st sn, match_symbol_line l = Some (st, sn) /\ ~ In st all_type_chars) ->
  (exists e, symbol_stats out = inl e)
  /\ (forall tc, nm_dump tc = Some out -> preprocessed tc <> None -> object_bytes tc <> None ->
       exists e, analyze tc = inl (ParseError e))
  /\ (forall tc, nm_dump tc = Some out -> exists err, analyze tc = inl err).
Proof.
  intros Hl Hbad.
  destruct (classify_lines_fails (splitlines out) zero_counts l Hl Hbad) as [e He].
  assert (Hs : symbol_stats out = inl e) by exact He.
  split; [eauto|]. split.
  - intros tc Hn Hp Ho. exists e. now apply (analyze_parse_error tc out e).
  - intros tc Hn. destruct (analyze tc) as [err|m] eqn:Ha; [eauto|].
    destruct (analyze_ok tc m Ha) as (out' & dump & sc & _ & Hn' & Hs' & _).
    rewrite Hn in Hn'. injection Hn' as <-. congruence.
Qed.

Lemma symbol_parse_failure_witness :
  let out := "0000 T foo" +:+ String LF "0000 X qux" in
  In "0000 X qux" (splitlines out)
  /\ match_symbol_line "0000 X qux" = Some ("X"%char, "qux")
  /\ ~ In "X"%char all_type_chars
  /\ exists e, symbol_stats out = inl e.
Proof.
  intros out.
  assert (H1 : In "0000 X qux" (splitlines out)) by (subst out; vm_compute; tauto).
  assert (H2 : match_symbol_line "0000 X qux" = Some ("X"%char, "qux")) by (vm_compute; reflexivity).
  assert (H3 : ~ In "X"%char all_type_chars)
    by (vm_compute; intros H; repeat destruct H as [H|H]; discriminate || contradiction).
  split; [exact H1|]. split; [exact H2|]. split; [exact H3|].
  apply (proj1 (symbol_parse_failure out "0000 X qux" H1 (or_intror (ex_intro _ _ (ex_intro _ _ (conj H2 H3)))))).
Defined.

End MeasureClaims.

(* ================================================================== *)
(** ** Facts about the job loop *)

Module JobsFacts.
Import Text Jobs.

Section Loop.
Context {M : Type}.
Variable analyzer : nat -> job -> option M.

Lemma hit_jobs_app (es1 es2 : list (event (M:=M))) :
  hit_jobs (es1 ++ es2) = hit_jobs es1 ++ hit_jobs es2.
Proof. induction es1 as [|e es1 IH]; simpl; [reflexivity|]. destruct e; simpl; now rewrite IH. Qed.

Lemma measured_jobs_app (es1 es2 : list (event (M:=M))) :
  measured_jobs (es1 ++ es2) = measured_jobs es1 ++ measured_jobs es2.
Proof. induction es1 as [|e es1 IH]; simpl; [reflexivity|]. destruct e; simpl; now rewrite IH. Qed.

Lemma measured_keys_app (es1 es2 : list (event (M:=M))) :
  measured_keys (es1 ++ es2) = measured_keys es1 ++ measured_keys es2.
Proof. induction es1 as [|e es1 IH]; simpl; [reflexivity|]. destruct e; simpl; now rewrite IH. Qed.

Lemma file_after_app (d : cache_file M) (es1 es2 : list (event (M:=M))) :
  file_after d (es1 ++ es2) = file_after (file_after d es1) es2.
Proof. unfold file_after. apply fold_left_app. Qed.

(** The two ways one job goes through the loop body. *)
Lemma process_job_cases (s s' : state) (j : job) :
  process_job analyzer s j = Some s' ->
  (exists res, job_cache s !! cache_key j = Some res
     /\ s' = mk_state (job_cache s) (S (found_cached s)) (S (idx s)) (n_calls s)
               (events s ++ [EvHit (idx s) (cache_key j)])
               (out s ++ [mk_enriched j (idx s) (argstr j) res]))
  \/ (exists res, job_cache s !! cache_key j = None /\ analyzer (n_calls s) j = Some res
     /\ s' = mk_state (<[cache_key j := res]> (job_cache s)) (found_cached s) (S (idx s))
               (S (n_calls s))
               (events s ++ [EvMeasure (idx s) (cache_key j); EvTruncate;
                             EvWrite (<[cache_key j := res]> (job_cache s))])
               (out s ++ [mk_enriched j (idx s) (argstr j) res])).
Proof.
  unfold process_job. intros H.
  destruct (job_cache s !! cache_key j) as [res|] eqn:E.
  - left. exists res. split; [reflexivity|]. congruence.
  - right. destruct (analyzer (n_calls s) j) as [res|] eqn:Ea; [|discriminate].
    exists res. split; [reflexivity|]. split; [reflexivity|]. congruence.
Qed.

Lemma process_job_subseteq (s s' : state) (j : job) :
  process_job analyzer s j = Some s' -> job_cache s ⊆ job_cache s'.
Proof.
  intros H. destruct (process_job_cases s s' j H) as [(res & E & ->)|(res & E & _ & ->)]; simpl.
  - reflexivity.
  - now apply insert_subseteq.
Qed.

Lemma run_jobs_app (s : state) (js1 js2 : list job) :
  run_jobs analyzer s (js1 ++ js2) =
  match run_jobs analyzer s js1 with
  | Some s1 => run_jobs analyzer s1 js2
  | None => None
  end.
Proof.
  revert s. induction js1 as [|j js1 IH]; intros s; simpl; [reflexivity|].
  destruct (process_job analyzer s j); [apply IH|reflexivity].
Qed.

(** The state only grows: the cache for inclusion, the output and the
    effects by appending, and the new effects concern jobs from [idx s]. *)
Lemma run_jobs_grows (s s' : state) (js : list job) :
  run_jobs analyzer s js = Some s' ->
  job_cache s ⊆ job_cache s' /\ idx s' = idx s + length js
  /\ (exists o, out s' = out s ++ o)
  /\ (exists es, events s' = events s ++ es
       /\ forall k, In k (hit_jobs es ++ measured_jobs es) -> idx s <= k).
Proof.
  revert s. induction js as [|j js IH]; intros s H; simpl in H.
  - injection H as <-. split; [reflexivity|]. split; [simpl; lia|]. split.
    + exists []. now rewrite app_nil_r.
    + exists []. split; [now rewrite app_nil_r|]. intros k [].
  - destruct (process_job analyzer s j) as [s1|] eqn:E1; [|discriminate].
    destruct (IH s1 H) as (Hsub & Hidx & (o & Ho) & (es & Hes & Hk)).
    pose proof (process_job_subseteq s s1 j E1) as Hsub1.
    destruct (process_job_cases s s1 j E1) as [(res & _ & ->)|(res & _ & _ & ->)]; simpl in *.
    + split; [etransitivity; eassumption|]. split; [lia|]. split.
      * exists ([mk_enriched j (idx s) (argstr j) res] ++ o). now rewrite Ho, app_assoc.
      * exists ([EvHit (idx s) (cache_key j)] ++ es). split; [now rewrite Hes, app_assoc|].
        intros k Hin.
        assert (Hk' : k = idx s \/ In k (hit_jobs es ++ measured_jobs es)).
        { rewrite hit_jobs_app, measured_jobs_app in Hin. simpl in Hin.
          rewrite !in_app_iff in *. simpl in Hin. intuition. }
        destruct Hk' as [->|Hk']; [lia|]. specialize (Hk k Hk'). lia.
    + split; [etransitivity; eassumption|]. split; [lia|]. split.
      * exists ([mk_enriched j (idx s) (argstr j) res] ++ o). now rewrite Ho, app_assoc.
      * eexists. split; [now rewrite Hes, app_assoc|].
        intros k Hin.
        assert (Hk' : k = idx s \/ In k (hit_jobs es ++ measured_jobs es)).
        { rewrite hit_jobs_app, measured_jobs_app in Hin. simpl in Hin.
          rewrite !in_app_iff in *. simpl in Hin. intuition. }
        destruct Hk' as [->|Hk']; [lia|]. specialize (Hk k Hk'). lia.
Qed.

Lemma process_job_counters (s s' : state) (j : job) :
  counters_consistent s -> process_job analyzer s j = Some s' -> counters_consistent s'.
Proof.
  intros (Hf & Hc & Hl & Hk) H.
  destruct (process_job_cases s s' j H) as [(res & _ & ->)|(res & _ & _ & ->)];
    unfold counters_consistent; simpl;
    rewrite hit_jobs_app, measured_jobs_app, length_app; simpl;
    rewrite ?length_app; simpl.
  - split; [lia|]. split; [lia|]. split; [lia|].
    intros k Hin. rewrite !in_app_iff in Hin. simpl in Hin.
    assert (In k (hit_jobs (events s) ++ measured_jobs (events s)) \/ k = idx s) as [H' | ->]
      by (rewrite in_app_iff; intuition).
    + specialize (Hk k H'). lia.
    + lia.
  - split; [lia|]. split; [lia|]. split; [lia|].
    intros k Hin. rewrite !in_app_iff in Hin. simpl in Hin.
    assert (In k (hit_jobs (events s) ++ measured_jobs (events s)) \/ k = idx s) as [H' | ->]
      by (rewrite in_app_iff; intuition).
    + specialize (Hk k H'). lia.
    + lia.
Qed.

Lemma run_jobs_counters (s s' : state) (js : list job) :
  counters_consistent s -> run_jobs analyzer s js = Some s' -> counters_consistent s'.
Proof.
  revert s. induction js as [|j js IH]; intros s Hs H; simpl in H.
  - congruence.
  - destruct (process_job analyzer s j) as [s1|] eqn:E; [|discriminate].
    exact (IH s1 (process_job_counters s s1 j Hs E) H).
Qed.

Lemma initial_counters (cache0 : gmap string M) :
  counters_consistent (initial_state cache0).
Proof. unfold counters_consistent; simpl. repeat split; intros k []. Qed.

(** Results that have been written are still found later. *)
Lemma process_job_measured_in_cache (s s' : state) (j : job) :
  measured_in_cache s -> process_job analyzer s j = Some s' -> measured_in_cache s'.
Proof.
  intros Hm H. pose proof (process_job_subseteq s s' j H) as Hsub.
  destruct (process_job_cases s s' j H) as [(res & _ & Hs')|(res & _ & _ & Hs')];
    unfold measured_in_cache in *; intros k Hk;
    pose proof Hs' as Hs''; rewrite Hs' in Hk; simpl in Hk;
    rewrite measured_keys_app in Hk; simpl in Hk; rewrite in_app_iff in Hk.
  - destruct Hk as [Hk|[]]. intros Hn. specialize (Hm k Hk).
    destruct (job_cache s !! k) eqn:E; [|contradiction].
    rewrite (lookup_weaken _ _ _ _ E Hsub) in Hn. discriminate.
  - rewrite Hs''. simpl. destruct Hk as [Hk|[<-|[]]].
    + intros Hn. specialize (Hm k Hk).
      destruct (job_cache s !! k) eqn:E; [|contradiction].
      rewrite Hs'' in Hsub. simpl in Hsub.
      rewrite (lookup_weaken _ _ _ _ E Hsub) in Hn. discriminate.
    + rewrite lookup_insert_eq. discriminate.
Qed.

Lemma lost_after_bound (d0 : cache_file M) (p : list (event (M:=M)))
    (m : gmap string M) (ks extra : list string) :
  load_cache (file_after d0 p) = Some m -> measured_keys p = ks ++ extra ->
  (forall k, In k ks -> m !! k <> None) ->
  length (lost_after d0 p) <= length extra.
Proof.
  intros Hl Hk Hin. unfold lost_after. rewrite Hl, Hk, List.filter_app, length_app.
  assert (E : List.filter (fun k => match m !! k with None => true | Some _ => false end) ks = []).
  { clear Hk. revert Hin. induction ks as [|k ks IH]; intros Hin; simpl; [reflexivity|].
    destruct (m !! k) eqn:E.
    - apply IH. intros k' Hk'. apply Hin. now right.
    - exfalso. apply (Hin k); [now left|exact E]. }
  rewrite E. simpl. clear Hk Hl.
  induction extra as [|x extra IH]; simpl; [lia|].
  destruct (m !! x); simpl; lia.
Qed.

(** The crash property of one state: every crash point among its effects,
    except right after a truncation, loses at most one computed result. *)
Lemma process_job_crash (d0 : cache_file M) (s s' : state) (j : job) :
  measured_in_cache s -> measured_on_disk d0 s ->
  (forall p q, events s = p ++ q -> file_after d0 p <> TruncatedFile ->
     length (lost_after d0 p) <= 1) ->
  process_job analyzer s j = Some s' ->
  measured_on_disk d0 s'
  /\ (forall p q, events s' = p ++ q -> file_after d0 p <> TruncatedFile ->
       length (lost_after d0 p) <= 1).
Proof.
  intros Hmc (m & Hload & Hdisk) Hcrash H.
  destruct (process_job_cases s s' j H) as [(res & _ & ->)|(res & Hnone & _ & ->)]; simpl.
  - split.
    + exists m. cbn [events]. rewrite file_after_app, measured_keys_app. simpl.
      rewrite app_nil_r. split; assumption.
    + intros p q Heq Ht. cbn [events] in Heq. apply app_eq_app in Heq as (r & [[Hx Hq]|[Hp Hr]]).
      * exact (Hcrash p r Hx Ht).
      * subst p. destruct r as [|x r]; [rewrite app_nil_r in Ht |- *; apply (Hcrash _ []); [now rewrite app_nil_r|exact Ht]|].
        simpl in Hr. injection Hr as <- Hr. symmetry in Hr. apply app_eq_nil in Hr as [-> ->].
        eapply Nat.le_trans; [|apply Nat.le_0_1].
        apply (lost_after_bound d0 _ m (measured_keys (events s)) []);
          [now rewrite file_after_app|rewrite measured_keys_app; simpl; reflexivity|exact Hdisk].
  - set (c' := <[cache_key j:=res]> (job_cache s)).
    assert (Hc' : forall k, In k (measured_keys (events s) ++ [cache_key j]) -> c' !! k <> None).
    { intros k Hk. apply in_app_iff in Hk as [Hk|[<-|[]]].
      - specialize (Hmc k Hk). destruct (job_cache s !! k) eqn:E; [|contradiction].
        unfold c'. rewrite (lookup_weaken _ _ _ _ E (insert_subseteq _ _ _ Hnone)). discriminate.
      - unfold c'. rewrite lookup_insert_eq. discriminate. }
    split.
    + exists c'. cbn [events]. rewrite file_after_app, measured_keys_app. simpl. split; [reflexivity|].
      exact Hc'.
    + intros p q Heq Ht. cbn [events] in Heq. apply app_eq_app in Heq as (r & [[Hx Hq]|[Hp Hr]]).
      * exact (Hcrash p r Hx Ht).
      * subst p. destruct r as [|x1 r]; [rewrite app_nil_r in Ht |- *; apply (Hcrash _ []); [now rewrite app_nil_r|exact Ht]|].
        simpl in Hr. injection Hr as <- Hr.
        destruct r as [|x2 r].
        -- (* crash right after the analyzer returned *)
           apply (lost_after_bound d0 _ m (measured_keys (events s)) [cache_key j]);
             [now rewrite file_after_app|rewrite measured_keys_app; simpl; reflexivity|exact Hdisk].
        -- simpl in Hr. injection Hr as <- Hr. destruct r as [|x3 r].
           ++ exfalso. apply Ht. rewrite file_after_app. reflexivity.
           ++ simpl in Hr. injection Hr as <- Hr.
              symmetry in Hr. apply app_eq_nil in Hr as [-> ->].
              eapply Nat.le_trans; [|apply Nat.le_0_1].
              apply (lost_after_bound d0 _ c' (measured_keys (events s) ++ [cache_key j]) []).
              ** rewrite file_after_app. reflexivity.
              ** rewrite measured_keys_app. simpl. now rewrite app_nil_r.
              ** exact Hc'.
Qed.

Lemma run_jobs_crash (d0 : cache_file M) (s s' : state) (js : list job) :
  measured_in_cache s -> measured_on_disk d0 s ->
  (forall p q, events s = p ++ q -> file_after d0 p <> TruncatedFile ->
     length (lost_after d0 p) <= 1) ->
  run_jobs analyzer s js = Some s' ->
  forall p q, events s' = p ++ q -> file_after d0 p <> TruncatedFile ->
    length (lost_after d0 p) <= 1.
Proof.
  revert s. induction js as [|j js IH]; intros s Hm Hd Hc H; simpl in H.
  - injection H as <-. exact Hc.
  - destruct (process_job analyzer s j) as [s1|] eqn:E; [|discriminate].
    destruct (process_job_crash d0 s s1 j Hm Hd Hc E) as [Hd1 Hc1].
    exact (IH s1 (process_job_measured_in_cache s s1 j Hm E) Hd1 Hc1 H).
Qed.

Lemma initial_crash (d0 : cache_file M) (cache0 : gmap string M) :
  load_cache d0 = Some cache0 ->
  measured_in_cache (initial_state cache0) /\ measured_on_disk d0 (initial_state cache0)
  /\ (forall p q, events (initial_state cache0) = p ++ q -> file_after d0 p <> TruncatedFile ->
        length (lost_after d0 p) <= 1).
Proof.
  intros Hl. split; [|split].
  - intros k [].
  - exists cache0. split; [exact Hl|]. intros k [].
  - intros p q Hp _. simpl in Hp. symmetry in Hp. apply app_eq_nil in Hp as [-> _].
    unfold lost_after. simpl. destruct (load_cache d0); simpl; lia.
Qed.

End Loop.
End JobsFacts.

(* ================================================================== *)
(** ** The cache key *)

Module KeyFacts.
Import Text Jobs.

Lemma append_colon_inj (x y r1 r2 : string) :
  has_char (Ascii.eqb ":"%char) x = false -> has_char (Ascii.eqb ":"%char) y = false ->
  x +:+ String ":"%char r1 = y +:+ String ":"%char r2 -> x = y /\ r1 = r2.
Proof.
  revert y. induction x as [|c x IH]; intros y Hx Hy H; destruct y as [|d y]; simpl in *.
  - injection H as ->. split; reflexivity.
  - injection H as Hd _. subst d. unfold has_char in Hy. simpl in Hy. discriminate.
  - injection H as Hc _. subst c. unfold has_char in Hx. simpl in Hx. discriminate.
  - injection H as <- H.
    unfold has_char in Hx, Hy. simpl in Hx, Hy. apply orb_false_iff in Hx as [_ Hx].
    apply orb_false_iff in Hy as [_ Hy].
    destruct (IH y Hx Hy H) as [-> ->]. split; reflexivity.
Qed.

Lemma append_colon_neq (x y r : string) :
  has_char (Ascii.eqb ":"%char) x = false -> x <> y +:+ String ":"%char r.
Proof.
  revert x. induction y as [|c y IH]; intros x Hx H; subst x; unfold has_char in *; simpl in *.
  - discriminate.
  - apply orb_false_iff in Hx as [_ Hx]. exact (IH _ Hx eq_refl).
Qed.

(** [":".join] is injective on non-empty lists of strings without [':']. *)
Lemma concat_colon_inj (l1 l2 : list string) :
  l1 <> [] -> l2 <> [] ->
  Forall (fun x => has_char (Ascii.eqb ":"%char) x = false) l1 ->
  Forall (fun x => has_char (Ascii.eqb ":"%char) x = false) l2 ->
  String.concat ":" l1 = String.concat ":" l2 -> l1 = l2.
Proof.
  revert l2. induction l1 as [|x l1 IH]; intros l2 Hn1 Hn2 H1 H2 H; [congruence|].
  destruct l2 as [|y l2]; [congruence|].
  inversion H1 as [|? ? Hx H1']; subst. inversion H2 as [|? ? Hy H2']; subst.
  destruct l1 as [|x' l1]; destruct l2 as [|y' l2]; simpl in H.
  - now subst.
  - exfalso. exact (append_colon_neq x y _ Hx H).
  - exfalso. symmetry in H. exact (append_colon_neq y x _ Hy H).
  - destruct (append_colon_inj x y _ _ Hx Hy H) as [-> Hr].
    f_equal. apply IH; [discriminate|discriminate|exact H1'|exact H2'|exact Hr].
Qed.

End KeyFacts.

(* ================================================================== *)
(** ** Claims on the job loop *)

Module JobsClaims.
Import Text Jobs JobsFacts KeyFacts.

(** C3 (as stated, refuted): [":".join] does not separate components that
    contain [':']: two jobs with different files and compilers get one key,
    and so do two jobs whose args differ only in their order. *)
Lemma cache_key_collisions :
  cache_key (mk_job "a:b" "/usr/bin/g++" []) = cache_key (mk_job "a" "b:/usr/bin/g++" [])
  /\ mk_job "a:b" "/usr/bin/g++" [] <> mk_job "a" "b:/usr/bin/g++" []
  /\ cache_key (mk_job "vector" "/usr/bin/g++" ["-g"; "-g:-g"])
     = cache_key (mk_job "vector" "/usr/bin/g++" ["-g:-g"; "-g"])
  /\ mk_job "vector" "/usr/bin/g++" ["-g"; "-g:-g"] <> mk_job "vector" "/usr/bin/g++" ["-g:-g"; "-g"].
Proof.
  split; [reflexivity|]. split; [discriminate|]. split; [reflexivity|]. discriminate.
Qed.

(** C3 (amended): equal jobs have equal keys, and when neither the file,
    the compiler nor any argument contains [':'], equal keys mean equal
    file, compiler and args; such jobs whose args differ only in their
    order get different keys. *)
Theorem cache_key_injective_without_colon (j1 j2 : job) :
  Forall (fun x => has_char (Ascii.eqb ":") x = false) (file j1 :: compiler j1 :: args j1) ->
  Forall (fun x => has_char (Ascii.eqb ":") x = false) (file j2 :: compiler j2 :: args j2) ->
  cache_key j1 = cache_key j2 <-> j1 = j2.
Proof.
  intros H1 H2. split; [|now intros ->].
  intros H. unfold cache_key in H.
  apply concat_colon_inj in H; [|discriminate|discriminate|exact H1|exact H2].
  destruct j1, j2; simpl in H. injection H as -> -> ->. reflexivity.
Qed.

Lemma cache_key_injective_without_colon_witness :
  Forall (fun x => has_char (Ascii.eqb ":") x = false) ["vector"; "/usr/bin/g++"; "-O2"; "-g"]
  /\ Forall (fun x => has_char (Ascii.eqb ":") x = false) ["vector"; "/usr/bin/g++"; "-g"; "-O2"]
  /\ cache_key (mk_job "vector" "/usr/bin/g++" ["-O2"; "-g"])
     <> cache_key (mk_job "vector" "/usr/bin/g++" ["-g"; "-O2"]).
Proof.
  assert (H1 : Forall (fun x => has_char (Ascii.eqb ":") x = false) ["vector"; "/usr/bin/g++"; "-O2"; "-g"])
    by (repeat constructor).
  assert (H2 : Forall (fun x => has_char (Ascii.eqb ":") x = false) ["vector"; "/usr/bin/g++"; "-g"; "-O2"])
    by (repeat constructor).
  split; [exact H1|]. split; [exact H2|].
  intros H.
  apply (cache_key_injective_without_colon (mk_job "vector" "/usr/bin/g++" ["-O2"; "-g"])
           (mk_job "vector" "/usr/bin/g++" ["-g"; "-O2"]) H1 H2) in H.
  discriminate.
Defined.

(** C4: two jobs of the list with the same file, compiler and args (so the
    same key) end with the same result dictionary; the later one is found
    in the cache (counted in [found_cached]) and never sent to the analyzer,
    and the counters [found_cached] and the number of analyzer runs count
    the hits and the runs. *)
Theorem duplicate_jobs_share_result {M : Type} (analyzer : nat -> job -> option M)
    (cache0 : gmap string M) (pre mid post : list job) (a b : job) (s : state) :
  file a = file b -> compiler a = compiler b -> args a = args b ->
  execute_jobs analyzer cache0 (pre ++ a :: mid ++ b :: post) = Some s ->
  exists e1 e2,
    out s !! length pre = Some e1 /\ out s !! (length pre + S (length mid)) = Some e2
    /\ ej_job e1 = a /\ ej_job e2 = b /\ ej_metrics e1 = ej_metrics e2
    /\ In (length pre + S (length mid)) (hit_jobs (events s))
    /\ ~ In (length pre + S (length mid)) (measured_jobs (events s))
    /\ found_cached s = length (hit_jobs (events s))
    /\ n_calls s = length (measured_jobs (events s)).
Proof.
  intros Hf Hc Ha H. unfold execute_jobs in H.
  assert (Hk : cache_key a = cache_key b) by (unfold cache_key; rewrite Hf, Hc, Ha; reflexivity).
  rewrite run_jobs_app in H.
  destruct (run_jobs analyzer (initial_state cache0) pre) as [s1|] eqn:E1; [|discriminate].
  simpl in H. destruct (process_job analyzer s1 a) as [s2|] eqn:E2; [|discriminate].
  rewrite run_jobs_app in H.
  destruct (run_jobs analyzer s2 mid) as [s3|] eqn:E3; [|discriminate].
  simpl in H. destruct (process_job analyzer s3 b) as [s4|] eqn:E4; [|discriminate].
  pose proof (run_jobs_counters analyzer _ _ _ (initial_counters cache0) E1) as C1.
  pose proof (process_job_counters analyzer _ _ _ C1 E2) as C2.
  pose proof (run_jobs_counters analyzer _ _ _ C2 E3) as C3.
  pose proof (process_job_counters analyzer _ _ _ C3 E4) as C4.
  pose proof (run_jobs_counters analyzer _ _ _ C4 H) as C5.
  destruct (run_jobs_grows analyzer _ _ _ E1) as (_ & I1 & _).
  destruct (run_jobs_grows analyzer _ _ _ E3) as (S3 & I3 & [o3 O3] & _).
  destruct (run_jobs_grows analyzer _ _ _ H) as (_ & _ & [o5 O5] & [es5 [V5 B5]]).
  simpl in I1.
  (* the first occurrence: hit or run, its result is in the cache afterwards *)
  assert (A : exists r, job_cache s2 !! cache_key a = Some r
             /\ out s2 = out s1 ++ [mk_enriched a (idx s1) (argstr a) r] /\ idx s2 = S (idx s1)).
  { destruct (process_job_cases analyzer _ _ _ E2) as [[r [Hr ->]] | [r [_ [_ ->]]]];
      exists r; simpl; (split; [|split; reflexivity]); [exact Hr|].
    by simplify_map_eq. }
  destruct A as (r & Hr & O2 & I2).
  assert (Hr3 : job_cache s3 !! cache_key b = Some r)
    by (rewrite <- Hk; exact (lookup_weaken _ _ _ _ Hr S3)).
  destruct (process_job_cases analyzer _ _ _ E4) as [[r' [Hr' ->]] | [r' [Hn _]]];
    [|congruence].
  rewrite Hr3 in Hr'. injection Hr' as <-.
  cbn [out events idx] in *.
  destruct C1 as (_ & _ & L1 & _). destruct C3 as (_ & _ & L3 & K3).
  destruct C5 as (F5 & N5 & _ & _).
  assert (Hi3 : idx s3 = length pre + S (length mid)) by lia.
  exists (mk_enriched a (idx s1) (argstr a) r), (mk_enriched b (idx s3) (argstr b) r).
  split; [|split; [|split; [reflexivity|split; [reflexivity|split; [reflexivity|]]]]].
  - rewrite O5, O3, O2. rewrite <- !app_assoc. simpl.
    apply list_lookup_middle. lia.
  - rewrite O5, <- Hi3, <- app_assoc. simpl. apply list_lookup_middle. lia.
  - rewrite <- Hi3. split; [|split; [|split; [exact F5|exact N5]]]; rewrite V5.
    + rewrite !hit_jobs_app. simpl. apply in_or_app. left. apply in_or_app. right. left. reflexivity.
    + rewrite !measured_jobs_app. simpl. intros Hin.
      apply in_app_or in Hin as [Hin | Hin].
      * apply in_app_or in Hin as [Hin | []].
        assert (idx s3 < idx s3) by (apply K3; apply in_or_app; right; exact Hin). lia.
      * assert (S (idx s3) <= idx s3) by (apply B5; apply in_or_app; right; exact Hin). lia.
Qed.

Lemma duplicate_jobs_share_result_witness :
  exists s, execute_jobs (fun n _ => Some n) ∅
      ([] ++ mk_job "vector" "/usr/bin/g++" ["-O2"]
          :: [mk_job "map" "/usr/bin/g++" []] ++ mk_job "vector" "/usr/bin/g++" ["-O2"] :: [])
    = Some s
  /\ exists e1 e2,
    out s !! 0 = Some e1 /\ out s !! 2 = Some e2
    /\ ej_job e1 = mk_job "vector" "/usr/bin/g++" ["-O2"]
    /\ ej_job e2 = mk_job "vector" "/usr/bin/g++" ["-O2"] /\ ej_metrics e1 = ej_metrics e2
    /\ In 2 (hit_jobs (events s)) /\ ~ In 2 (measured_jobs (events s))
    /\ found_cached s = length (hit_jobs (events s))
    /\ n_calls s = length (measured_jobs (events s)).
Proof.
  eexists. split; [vm_compute; reflexivity|].
  exact (duplicate_jobs_share_result (fun n _ => Some n) ∅ [] [mk_job "map" "/usr/bin/g++" []] []
           (mk_job "vector" "/usr/bin/g++" ["-O2"]) (mk_job "vector" "/usr/bin/g++" ["-O2"]) _
           eq_refl eq_refl eq_refl (eq_refl _)).
Defined.

(** C8 (as stated, refuted): the rewrite after each new result opens the
    cache file with ["w"], which empties it before [json.dump] writes it; a
    process killed in between leaves an empty file that [json.load] cannot
    read at the next start, so the results of all jobs run so far are lost,
    not only the one in flight. *)
Lemma crash_during_rewrite_loses_all :
  match execute_jobs (fun n _ => Some n) ∅
          [mk_job "vector" "/usr/bin/g++" []; mk_job "map" "/usr/bin/g++" []] with
  | Some s =>
      file_after NoCacheFile (firstn 5 (events s)) = TruncatedFile
      /\ load_cache (file_after NoCacheFile (firstn 5 (events s))) = None
      /\ length (lost_after NoCacheFile (firstn 5 (events s))) = 2
  | None => False
  end.
Proof. vm_compute. split; [reflexivity|split; reflexivity]. Qed.

(** C8 (amended): the cache only grows (no key is removed and no stored
    result replaced); each new result is inserted and the whole cache is
    rewritten to the file at once, before the next job; a hit leaves cache
    and file alone. A process killed at any point other than between the
    truncation and the write of a rewrite leaves a file that loads and
    misses at most the result of the job in flight. *)
Theorem cache_grows_and_is_rewritten {M : Type} (analyzer : nat -> job -> option M) :
  (forall s j s', process_job analyzer s j = Some s' ->
     job_cache s ⊆ job_cache s'
     /\ ((job_cache s' = job_cache s /\ exists i k, events s' = events s ++ [EvHit i k])
         \/ (exists i k r, job_cache s !! k = None /\ job_cache s' = <[k := r]> (job_cache s)
               /\ events s' = events s ++ [EvMeasure i k; EvTruncate; EvWrite (job_cache s')])))
  /\ (forall cache0 js s, execute_jobs analyzer cache0 js = Some s -> cache0 ⊆ job_cache s)
  /\ (forall d0 cache0 js s p q, load_cache d0 = Some cache0 ->
        execute_jobs analyzer cache0 js = Some s ->
        events s = p ++ q -> file_after d0 p <> TruncatedFile ->
        length (lost_after d0 p) <= 1).
Proof.
  split; [|split].
  - intros s j s' H. split; [exact (process_job_subseteq analyzer s s' j H)|].
    destruct (process_job_cases analyzer _ _ _ H) as [[r [_ ->]] | [r [Hn [_ ->]]]].
    + left. split; [reflexivity|]. do 2 eexists. reflexivity.
    + right. exists (idx s), (cache_key j), r. split; [exact Hn|]. split; reflexivity.
  - intros cache0 js s H. exact (proj1 (run_jobs_grows analyzer _ _ _ H)).
  - intros d0 cache0 js s p q Hl H. destruct (initial_crash d0 cache0 Hl) as (Hm & Hd & Hc).
    exact (run_jobs_crash analyzer d0 _ _ _ Hm Hd Hc H p q).
Qed.

Lemma cache_grows_and_is_rewritten_witness :
  load_cache (M:=nat) NoCacheFile = Some ∅
  /\ exists s, execute_jobs (fun n _ => Some n) ∅
         [mk_job "vector" "/usr/bin/g++" []; mk_job "map" "/usr/bin/g++" []] = Some s
     /\ file_after NoCacheFile (firstn 7 (events s)) <> TruncatedFile
     /\ length (lost_after NoCacheFile (firstn 7 (events s))) <= 1.
Proof.
  split; [reflexivity|].
  eexists. split; [vm_compute; reflexivity|].
  split; [vm_compute; discriminate|].
  refine (proj2 (proj2 (cache_grows_and_is_rewritten (fun n _ => Some n)))
            NoCacheFile ∅ [mk_job "vector" "/usr/bin/g++" []; mk_job "map" "/usr/bin/g++" []]
            _ _ (skipn 7 _) eq_refl (eq_refl _) _ _).
  - symmetry. apply firstn_skipn.
  - vm_compute. discriminate.
Defined.

End JobsClaims.

(* ================================================================== *)
(** ** Facts about [os.path.splitext] *)

Module SetupFacts.
Import Text Setup.

Lemma list_ascii_of_string_app (s1 s2 : string) :
  list_ascii_of_string (s1 +:+ s2) = list_ascii_of_string s1 ++ list_ascii_of_string s2.
Proof. induction s1 as [|c s1 IH]; simpl; [reflexivity|now rewrite IH]. Qed.

Lemma string_of_list_ascii_app (l1 l2 : list ascii) :
  string_of_list_ascii (l1 ++ l2) = string_of_list_ascii l1 +:+ string_of_list_ascii l2.
Proof. induction l1 as [|c l1 IH]; simpl; [reflexivity|now rewrite IH]. Qed.

Lemma append_cons (c : ascii) (s t : string) : String c s +:+ t = String c (s +:+ t).
Proof. reflexivity. Qed.

Lemma append_empty (s : string) : s +:+ EmptyString = s.
Proof. induction s as [|c s IH]; [reflexivity|now rewrite append_cons, IH]. Qed.

Lemma has_char_false (p : ascii -> bool) (s : string) :
  has_char p s = false <-> forall x, In x (list_ascii_of_string s) -> p x = false.
Proof.
  unfold has_char. split.
  - intros H x Hx. destruct (p x) eqn:E; [|reflexivity].
    assert (existsb p (list_ascii_of_string s) = true) by (apply existsb_exists; eauto). congruence.
  - intros H. destruct (existsb p _) eqn:E; [|reflexivity].
    apply existsb_exists in E as (x & Hx & Hp). rewrite (H x Hx) in Hp. discriminate.
Qed.

Lemma rfind_from_app (c : ascii) (l1 l2 : list ascii) (i acc : Z) :
  rfind_from c (l1 ++ l2) i acc
  = rfind_from c l2 (i + Z.of_nat (length l1))%Z (rfind_from c l1 i acc).
Proof.
  revert i acc. induction l1 as [|d l1 IH]; intros i acc; simpl.
  - now rewrite Z.add_0_r.
  - rewrite IH. f_equal. lia.
Qed.

Lemma rfind_from_notin (c : ascii) (l : list ascii) (i acc : Z) :
  (forall x, In x l -> Ascii.eqb x c = false) -> rfind_from c l i acc = acc.
Proof.
  revert i acc. induction l as [|d l IH]; intros i acc H; simpl; [reflexivity|].
  rewrite (H d (or_introl eq_refl)). apply IH. intros x Hx. apply H. now right.
Qed.

Lemma rfind_from_last (c : ascii) (l1 l2 : list ascii) (i acc : Z) :
  (forall x, In x l2 -> Ascii.eqb x c = false) ->
  rfind_from c (l1 ++ c :: l2) i acc = (i + Z.of_nat (length l1))%Z.
Proof.
  intros H. rewrite rfind_from_app. simpl. rewrite Ascii.eqb_refl. now apply rfind_from_notin.
Qed.

(** [rfind] finds the last occurrence, or none. *)
Lemma rfind_spec (c : ascii) (l : list ascii) :
  (rfind c l = (-1)%Z /\ forall x, In x l -> Ascii.eqb x c = false)
  \/ exists l1 l2, l = l1 ++ c :: l2 /\ (forall x, In x l2 -> Ascii.eqb x c = false)
       /\ rfind c l = Z.of_nat (length l1).
Proof.
  unfold rfind. induction l as [|d l IH] using rev_ind.
  - left. split; [reflexivity|intros x []].
  - rewrite rfind_from_app. simpl.
    destruct (Ascii.eqb d c) eqn:E.
    + apply Ascii.eqb_eq in E. subst d. right. exists l, []. split; [reflexivity|].
      split; [intros x []|]. lia.
    + destruct IH as [[H1 H2] | (l1 & l2 & -> & H1 & H2)].
      * left. split; [exact H1|]. intros x Hx. apply in_app_or in Hx as [Hx|[<-|[]]]; auto.
      * right. exists l1, (l2 ++ [d]). split; [now rewrite <- app_assoc|]. split; [|exact H2].
        intros x Hx. apply in_app_or in Hx as [Hx|[<-|[]]]; auto.
Qed.

Lemma skipn_app_exact {A} (l1 l2 : list A) : skipn (length l1) (l1 ++ l2) = l2.
Proof. induction l1; simpl; auto. Qed.

Lemma firstn_app_exact {A} (l1 l2 : list A) : firstn (length l1) (l1 ++ l2) = l1.
Proof. induction l1; simpl; f_equal; auto. Qed.

(** [splitext] on a path [d ++ c ++ "." ++ e] whose last component is
    [c ++ "." ++ e] ([d] empty or ending in ["/"], no ["/"] in [c], no ["/"]
    or ["."] in [e]). *)
Lemma splitext_last_dot (D C E : list ascii) :
  (D = [] \/ exists D', D = D' ++ ["/"%char]) ->
  (forall x, In x C -> Ascii.eqb x "/" = false) ->
  (forall x, In x E -> Ascii.eqb x "/" = false /\ Ascii.eqb x "." = false) ->
  splitext (string_of_list_ascii (D ++ C ++ "."%char :: E))
  = if existsb (fun c => negb (Ascii.eqb c ".")) C
    then (string_of_list_ascii (D ++ C), string_of_list_ascii ("."%char :: E))
    else (string_of_list_ascii (D ++ C ++ "."%char :: E), EmptyString).
Proof.
  intros HD HC HE. unfold splitext. rewrite list_ascii_of_string_of_list_ascii.
  assert (Hdot : rfind "." (D ++ C ++ "."%char :: E) = Z.of_nat (length (D ++ C))).
  { unfold rfind. rewrite app_assoc, rfind_from_last; [lia|]. intros x Hx. apply HE, Hx. }
  assert (Hsep : (rfind "/" (D ++ C ++ "."%char :: E) + 1)%Z = Z.of_nat (length D)).
  { unfold rfind. rewrite rfind_from_app.
    rewrite rfind_from_notin.
    2:{ intros x Hx. apply in_app_or in Hx as [Hx|[<-|Hx]]; [now apply HC|reflexivity|now apply HE]. }
    destruct HD as [-> | [D' ->]].
    - simpl. lia.
    - rewrite rfind_from_last; [|intros x []]. rewrite length_app. simpl. lia. }
  rewrite Hdot.
  assert (Hlt : Z.ltb (rfind "/" (D ++ C ++ "."%char :: E)) (Z.of_nat (length (D ++ C))) = true)
    by (apply Z.ltb_lt; rewrite length_app; lia).
  rewrite Hlt, Hsep, length_app, !Nat2Z.id.
  replace (Z.to_nat (Z.of_nat (length D + length C) - Z.of_nat (length D))) with (length C) by lia.
  rewrite skipn_app_exact, firstn_app_exact.
  destruct (existsb _ C); [|reflexivity].
  rewrite app_assoc, <- (length_app D C), firstn_app_exact, skipn_app_exact. reflexivity.
Qed.

(** No ["."] in the last component: no extension. *)
Lemma splitext_no_dot (D C : list ascii) :
  (D = [] \/ exists D', D = D' ++ ["/"%char]) ->
  (forall x, In x C -> Ascii.eqb x "/" = false /\ Ascii.eqb x "." = false) ->
  splitext (string_of_list_ascii (D ++ C)) = (string_of_list_ascii (D ++ C), EmptyString).
Proof.
  intros HD HC. unfold splitext. rewrite list_ascii_of_string_of_list_ascii.
  destruct HD as [-> | [D' ->]]; simpl.
  - unfold rfind. rewrite !rfind_from_notin by (intros x Hx; apply HC, Hx). reflexivity.
  - assert (Hs : rfind "/" ((D' ++ ["/"%char]) ++ C) = Z.of_nat (length D')).
    { unfold rfind. rewrite <- app_assoc. apply rfind_from_last. intros x Hx. apply HC, Hx. }
    assert (Hd : (rfind "." ((D' ++ ["/"%char]) ++ C) < Z.of_nat (length D'))%Z).
    { unfold rfind. rewrite <- app_assoc, rfind_from_app. simpl.
      rewrite rfind_from_notin by (intros x Hx; apply HC, Hx).
      destruct (rfind_spec "." D') as [[H _] | (l1 & l2 & -> & _ & H)];
        unfold rfind in H; rewrite H; [lia|]. rewrite length_app. simpl. lia. }
    rewrite Hs. destruct (Z.ltb_spec (Z.of_nat (length D')) (rfind "." ((D' ++ ["/"%char]) ++ C)));
      [lia|reflexivity].
Qed.

Lemma rfind_from_ge (c : ascii) (l : list ascii) (i acc : Z) :
  (acc < i)%Z -> (acc <= rfind_from c l i acc)%Z.
Proof.
  revert i acc. induction l as [|d l IH]; intros i acc H; simpl; [lia|].
  destruct (Ascii.eqb d c).
  - specialize (IH (i + 1)%Z i ltac:(lia)). lia.
  - specialize (IH (i + 1)%Z acc ltac:(lia)). lia.
Qed.

Lemma rfind_ge (c : ascii) (a b : list ascii) :
  (Z.of_nat (length a) <= rfind c (a ++ c :: b))%Z.
Proof.
  unfold rfind. rewrite rfind_from_app. simpl. rewrite Ascii.eqb_refl.
  apply rfind_from_ge. lia.
Qed.

Lemma string_list_app (s1 s2 : string) :
  string_of_list_ascii (list_ascii_of_string s1 ++ list_ascii_of_string s2) = s1 +:+ s2.
Proof. now rewrite string_of_list_ascii_app, !string_of_list_ascii_of_string. Qed.

End SetupFacts.

(* ================================================================== *)
(** ** Properties of the argument checks *)

Module SetupClaims.
Import Text Setup SetupFacts.

(** [os.path.splitext] splits a path into a root and an extension that
    together give the path back; the extension is empty or is ["."]
    followed by characters that are neither ["."] nor ["/"]. *)
Theorem splitext_parts (p : string) :
  fst (splitext p) +:+ snd (splitext p) = p
  /\ (snd (splitext p) = EmptyString
      \/ exists e, snd (splitext p) = String "." e
          /\ has_char (fun x => Ascii.eqb x "/" || Ascii.eqb x ".") e = false).
Proof.
  unfold splitext. set (l := list_ascii_of_string p).
  destruct (Z.ltb_spec (rfind "/" l) (rfind "." l)) as [Hlt|]; [|simpl; split; [apply append_empty|now left]].
  destruct (existsb _ _); [|simpl; split; [apply append_empty|now left]].
  simpl. split.
  { unfold l. now rewrite <- string_of_list_ascii_app, firstn_skipn, string_of_list_ascii_of_string. }
  right.
  destruct (rfind_spec "." l) as [[Hd _] | (l1 & l2 & Hl & Hl2 & Hd)].
  { destruct (rfind_spec "/" l) as [[Hs _] | (m1 & m2 & _ & _ & Hs)]; lia. }
  rewrite Hd, Nat2Z.id, Hl, skipn_app_exact.
  exists (string_of_list_ascii l2). split; [reflexivity|].
  apply has_char_false. rewrite list_ascii_of_string_of_list_ascii.
  intros x Hx. rewrite (Hl2 x Hx), orb_false_r.
  destruct (Ascii.eqb x "/") eqn:E; [|reflexivity].
  apply Ascii.eqb_eq in E. subst x.
  apply in_split in Hx as (a & b & ->).
  pose proof (rfind_ge "/" (l1 ++ "."%char :: a) b) as Hge.
  rewrite <- app_assoc in Hge. simpl in Hge. rewrite <- Hl in Hge.
  rewrite length_app in Hge. simpl in Hge. lia.
Qed.

(** How the extension, hence the kind of lines 48-50, follows from the last
    component of the path ([d] is empty or ends in ["/"], [c] has no
    ["/"]): with no ["."] in the last component there is no extension, so
    the file is taken for a system header (e.g. [vector]); otherwise the
    extension starts at the last ["."], except when only dots come before
    it in the last component (e.g. [.hpp] or [dir/..c]), which again gives
    no extension. *)
Theorem extension_of_last_component (d c : string) :
  (d = EmptyString \/ exists d', d = d' +:+ "/") ->
  has_char (fun x => Ascii.eqb x "/") c = false ->
  (has_char (fun x => Ascii.eqb x ".") c = false ->
     extension (d +:+ c) = EmptyString /\ is_system (d +:+ c) = true)
  /\ (forall e, has_char (fun x => Ascii.eqb x "/" || Ascii.eqb x ".") e = false ->
        has_char (fun x => negb (Ascii.eqb x ".")) c = true ->
        splitext (d +:+ c +:+ String "." e) = (d +:+ c, String "." e))
  /\ (forall e, has_char (fun x => Ascii.eqb x "/" || Ascii.eqb x ".") e = false ->
        has_char (fun x => negb (Ascii.eqb x ".")) c = false ->
        extension (d +:+ c +:+ String "." e) = EmptyString).
Proof.
  intros Hd Hc.
  assert (HD : list_ascii_of_string d = [] \/ exists D', list_ascii_of_string d = D' ++ ["/"%char]).
  { destruct Hd as [-> | [d' ->]]; [now left|right].
    exists (list_ascii_of_string d'). now rewrite list_ascii_of_string_app. }
  rewrite has_char_false in Hc.
  split; [|split].
  - intros Hc'. rewrite has_char_false in Hc'.
    unfold is_system, extension.
    rewrite <- (string_of_list_ascii_of_string (d +:+ c)), list_ascii_of_string_app.
    rewrite splitext_no_dot; [now split|exact HD|].
    intros x Hx. split; [apply Hc|apply Hc']; exact Hx.
  - intros e He Hn. rewrite has_char_false in He.
    rewrite <- (string_of_list_ascii_of_string (d +:+ c +:+ String "." e)),
      !list_ascii_of_string_app.
    simpl list_ascii_of_string at 3.
    rewrite splitext_last_dot; [|exact HD|exact Hc|].
    2:{ intros x Hx. specialize (He x Hx). apply orb_false_iff in He. exact He. }
    unfold has_char in Hn. rewrite Hn, string_list_app. simpl. now rewrite string_of_list_ascii_of_string.
  - intros e He Hn. rewrite has_char_false in He.
    unfold extension.
    rewrite <- (string_of_list_ascii_of_string (d +:+ c +:+ String "." e)),
      !list_ascii_of_string_app.
    simpl list_ascii_of_string at 3.
    rewrite splitext_last_dot; [|exact HD|exact Hc|].
    2:{ intros x Hx. specialize (He x Hx). apply orb_false_iff in He. exact He. }
    unfold has_char in Hn. rewrite Hn. reflexivity.
Qed.

Lemma extension_of_last_component_witness :
  ("bits/" = EmptyString \/ exists d', "bits/" = d' +:+ "/")
  /\ has_char (fun x => Ascii.eqb x "/") "stdc++" = false
  /\ splitext ("bits/" +:+ "stdc++" +:+ String "." "h") = ("bits/" +:+ "stdc++", String "." "h")
  /\ extension (EmptyString +:+ "vector") = EmptyString.
Proof.
  assert (H1 : "bits/" = EmptyString \/ exists d', "bits/" = d' +:+ "/") by (right; exists "bits"; reflexivity).
  assert (H2 : has_char (fun x => Ascii.eqb x "/") "stdc++" = false) by reflexivity.
  split; [exact H1|]. split; [exact H2|]. split.
  - apply (proj1 (proj2 (extension_of_last_component "bits/" "stdc++" H1 H2))); reflexivity.
  - apply (proj1 (extension_of_last_component EmptyString "vector" (or_introl eq_refl) eq_refl)).
    reflexivity.
Defined.

End SetupClaims.


(* ================================================================== *)
(** ** More facts about the job loop *)

Module JobsFacts2.
Import Text Jobs JobsFacts.

Section Loop.
Context {M : Type}.
Variable analyzer : nat -> job -> option M.

(** One step, as seen from the output list and the counters. *)
Lemma process_job_step (s s' : state) (j : job) :
  process_job analyzer s j = Some s' ->
  exists r, out s' = out s ++ [mk_enriched j (idx s) (argstr j) r]
    /\ idx s' = S (idx s)
    /\ job_cache s' !! cache_key j = Some r
    /\ found_cached s' + n_calls s' = S (found_cached s + n_calls s).
Proof.
  intros H. destruct (process_job_cases analyzer s s' j H) as [[r [Hr ->]] | [r [Hn [_ ->]]]];
    exists r; cbn [out idx job_cache found_cached n_calls].
  - split; [reflexivity|split; [reflexivity|split; [exact Hr|lia]]].
  - split; [reflexivity|split; [reflexivity|split; [apply lookup_insert_eq|lia]]].
Qed.

Lemma run_jobs_out (s s' : state) (js : list job) :
  run_jobs analyzer s js = Some s' ->
  map ej_job (out s') = map ej_job (out s) ++ js
  /\ map ej_id (out s') = map ej_id (out s) ++ seq (idx s) (length js)
  /\ (argstr_ok (out s) -> argstr_ok (out s')).
Proof.
  revert s. induction js as [|j js IH]; intros s H; simpl in H.
  - injection H as <-. rewrite !app_nil_r. auto.
  - destruct (process_job analyzer s j) as [s1|] eqn:E; [|discriminate].
    destruct (IH s1 H) as (H1 & H2 & H3).
    destruct (process_job_step s s1 j E) as (r & Ho & Hi & _ & _).
    split; [|split].
    + rewrite H1, Ho, map_app, <- app_assoc. reflexivity.
    + rewrite H2, Ho, Hi, map_app, <- app_assoc. reflexivity.
    + intros Ha. apply H3. rewrite Ho. intros e He.
      apply in_app_or in He as [He|[<-|[]]]; [now apply Ha|reflexivity].
Qed.

Lemma run_jobs_count (s s' : state) (js : list job) :
  run_jobs analyzer s js = Some s' ->
  found_cached s' + n_calls s' = found_cached s + n_calls s + length js.
Proof.
  revert s. induction js as [|j js IH]; intros s H; simpl in H.
  - injection H as <-. simpl. lia.
  - destruct (process_job analyzer s j) as [s1|] eqn:E; [|discriminate].
    destruct (process_job_step s s1 j E) as (_ & _ & _ & _ & Hc).
    rewrite (IH s1 H). simpl. lia.
Qed.

Lemma run_jobs_out_in_cache (s s' : state) (js : list job) :
  out_in_cache (job_cache s) (out s) -> run_jobs analyzer s js = Some s' ->
  out_in_cache (job_cache s') (out s').
Proof.
  revert s. induction js as [|j js IH]; intros s Hs H; simpl in H.
  - now injection H as <-.
  - destruct (process_job analyzer s j) as [s1|] eqn:E; [|discriminate].
    apply (IH s1); [|exact H].
    destruct (process_job_step s s1 j E) as (r & Ho & _ & Hr & _).
    intros e He. rewrite Ho in He. apply in_app_or in He as [He|[<-|[]]].
    + exact (lookup_weaken _ _ _ _ (Hs e He) (process_job_subseteq analyzer s s1 j E)).
    + exact Hr.
Qed.

(** One step, as seen from the keys of the cache and the analyzer runs. *)
Lemma process_job_keys (s s' : state) (j : job) :
  process_job analyzer s j = Some s' ->
  (forall k, job_cache s' !! k <> None <-> job_cache s !! k <> None \/ k = cache_key j)
  /\ ((measured_keys (events s') = measured_keys (events s) /\ n_calls s' = n_calls s
       /\ job_cache s !! cache_key j <> None /\ job_cache s' = job_cache s)
      \/ (measured_keys (events s') = measured_keys (events s) ++ [cache_key j]
          /\ n_calls s' = S (n_calls s) /\ job_cache s !! cache_key j = None)).
Proof.
  intros H. destruct (process_job_cases analyzer s s' j H) as [[r [Hr ->]] | [r [Hn [_ ->]]]];
    cbn [job_cache events n_calls]; rewrite measured_keys_app.
  - split.
    + intros k. split; [now left|]. intros [Hk | ->]; [exact Hk|congruence].
    + left. simpl. rewrite app_nil_r. repeat split; congruence.
  - split.
    + intros k. destruct (decide (k = cache_key j)) as [-> | Hne].
      * rewrite lookup_insert_eq. split; [now right|discriminate].
      * rewrite lookup_insert_ne by congruence. split; [now left|]. intros [Hk|Hk]; congruence.
    + right. simpl. repeat split; assumption.
Qed.

Lemma run_jobs_keys (s s' : state) (js : list job) :
  run_jobs analyzer s js = Some s' ->
  (forall k, job_cache s' !! k <> None <-> job_cache s !! k <> None \/ In k (map cache_key js))
  /\ exists new, measured_keys (events s') = measured_keys (events s) ++ new /\ List.NoDup new
       /\ (forall k, In k new <-> job_cache s !! k = None /\ In k (map cache_key js))
       /\ n_calls s' = n_calls s + length new.
Proof.
  revert s. induction js as [|j js IH]; intros s H; simpl in H.
  - injection H as <-. split.
    + intros k. simpl. tauto.
    + exists []. rewrite app_nil_r. split; [reflexivity|]. split; [constructor|].
      split; [intros k; simpl; tauto|simpl; lia].
  - destruct (process_job analyzer s j) as [s1|] eqn:E; [|discriminate].
    destruct (process_job_keys s s1 j E) as [Hd1 Hc1].
    destruct (IH s1 H) as [Hd2 (new & Hm & Hnd & Hin & Hn)].
    split.
    + intros k. rewrite Hd2, Hd1. simpl. intuition congruence.
    + destruct Hc1 as [(Hm1 & Hn1 & Hp & Hc) | (Hm1 & Hn1 & Hp)].
      * exists new. rewrite Hm, Hm1. split; [reflexivity|]. split; [exact Hnd|].
        split; [|lia].
        intros k. rewrite Hin, Hc. simpl. split; [tauto|].
        intros [Hk [<- | Hk']]; [congruence|tauto].
      * exists (cache_key j :: new). rewrite Hm, Hm1, <- app_assoc. split; [reflexivity|].
        split; [|split; [|simpl; lia]].
        -- constructor; [|exact Hnd]. intros Hk. apply Hin in Hk as [Hk _].
           apply (proj2 (Hd1 (cache_key j))); [now right|exact Hk].
        -- intros k. simpl. rewrite Hin. split.
           ++ intros [<- | [Hk Hk']]; [split; [exact Hp|now left]|].
              split; [|now right].
              destruct (job_cache s !! k) eqn:Ek; [|reflexivity].
              exfalso. apply (proj2 (Hd1 k)); [left; congruence|exact Hk].
           ++ intros [Hk [<- | Hk']]; [now left|].
              destruct (decide (k = cache_key j)) as [-> | Hne]; [now left|right].
              split; [|exact Hk'].
              destruct (job_cache s1 !! k) eqn:Ek; [|reflexivity].
              exfalso. assert (Hx : job_cache s1 !! k <> None) by congruence.
              apply Hd1 in Hx as [Hx|Hx]; congruence.
Qed.

Lemma run_jobs_file (d0 : cache_file M) (cache0 : gmap string M) (s s' : state) (js : list job) :
  file_state d0 cache0 s -> run_jobs analyzer s js = Some s' -> file_state d0 cache0 s'.
Proof.
  revert s. induction js as [|j js IH]; intros s Hs H; simpl in H.
  - now injection H as <-.
  - destruct (process_job analyzer s j) as [s1|] eqn:E; [|discriminate].
    apply (IH s1); [|exact H].
    destruct (process_job_cases analyzer s s1 j E) as [[r [_ ->]] | [r [_ [_ ->]]]];
      unfold file_state in *; cbn [events job_cache]; rewrite measured_keys_app, file_after_app.
    + simpl. rewrite app_nil_r. exact Hs.
    + right. split; [|reflexivity]. simpl. intros Hx. apply app_eq_nil in Hx as [_ Hx]. discriminate.
Qed.

End Loop.

(** A run over jobs whose keys are all cached only reuses results. *)
Lemma run_jobs_all_hits {M : Type} (an : nat -> job -> option M) (s : state) (js : list job) :
  (forall j, In j js -> job_cache s !! cache_key j <> None) ->
  exists s', run_jobs an s js = Some s' /\ n_calls s' = n_calls s
    /\ found_cached s' = found_cached s + length js /\ job_cache s' = job_cache s.
Proof.
  revert s. induction js as [|j js IH]; intros s H.
  - exists s. simpl. repeat split; lia.
  - destruct (job_cache s !! cache_key j) as [r|] eqn:Er; [|exfalso; apply (H j); [now left|exact Er]].
    set (s1 := mk_state (job_cache s) (S (found_cached s)) (S (idx s)) (n_calls s)
                 (events s ++ [EvHit (idx s) (cache_key j)])
                 (out s ++ [mk_enriched j (idx s) (argstr j) r])).
    assert (E : process_job an s j = Some s1) by (unfold process_job; rewrite Er; reflexivity).
    destruct (IH s1) as (s' & Hr & Hn & Hf & Hc).
    { intros j' Hj'. apply H. now right. }
    exists s'. simpl. rewrite E. split; [exact Hr|]. subst s1; simpl in *. repeat split; lia || congruence.
Qed.

(** Two output lists with the same jobs and ids, whose entries carry their
    [argstr] and the results stored under their keys in one cache, are
    equal. *)
Lemma enriched_list_eq {M : Type} (c : gmap string M) (l1 l2 : list (enriched (M:=M))) :
  map ej_job l1 = map ej_job l2 -> map ej_id l1 = map ej_id l2 ->
  argstr_ok l1 -> argstr_ok l2 -> out_in_cache c l1 -> out_in_cache c l2 -> l1 = l2.
Proof.
  revert l2. induction l1 as [|e1 l1 IH]; intros [|e2 l2] Hj Hi Ha1 Ha2 Hc1 Hc2; simpl in *;
    try discriminate; [reflexivity|].
  injection Hj as Hj Hj'. injection Hi as Hi Hi'. f_equal.
  - pose proof (Ha1 e1 (or_introl eq_refl)) as A1. pose proof (Ha2 e2 (or_introl eq_refl)) as A2.
    pose proof (Hc1 e1 (or_introl eq_refl)) as C1. pose proof (Hc2 e2 (or_introl eq_refl)) as C2.
    destruct e1, e2; simpl in *. subst. rewrite C1 in C2. injection C2 as ->. reflexivity.
  - apply IH; auto; intros e He; [apply Ha1|apply Ha2|apply Hc1|apply Hc2]; now right.
Qed.

End JobsFacts2.

(* ================================================================== *)
(** ** Properties of the job loop *)

Module JobsProps.
Import Text Jobs JobsFacts JobsFacts2.

(** The output list holds the jobs in their input order, the [k]-th with
    [id = k] and with [argstr] the space-joined args of its job. *)
Theorem execute_jobs_output {M : Type} (an : nat -> job -> option M)
    (cache0 : gmap string M) (js : list job) (s : state) :
  execute_jobs an cache0 js = Some s ->
  map ej_job (out s) = js /\ map ej_id (out s) = seq 0 (length js)
  /\ (forall e, In e (out s) -> ej_argstr e = argstr (ej_job e)).
Proof.
  intros H. destruct (run_jobs_out an _ _ _ H) as (H1 & H2 & H3).
  split; [exact H1|]. split; [exact H2|]. apply H3. intros e [].
Qed.

Lemma execute_jobs_output_witness :
  exists s, execute_jobs (fun n _ => Some n) ∅
      [mk_job "vector" "/usr/bin/g++" ["-O2"; "-g"]; mk_job "map" "/usr/bin/g++" []] = Some s
  /\ map ej_job (out s) = [mk_job "vector" "/usr/bin/g++" ["-O2"; "-g"]; mk_job "map" "/usr/bin/g++" []]
  /\ map ej_id (out s) = seq 0 2
  /\ (forall e, In e (out s) -> ej_argstr e = argstr (ej_job e)).
Proof.
  eexists. split; [vm_compute; reflexivity|].
  exact (execute_jobs_output (fun n _ => Some n) ∅
           [mk_job "vector" "/usr/bin/g++" ["-O2"; "-g"]; mk_job "map" "/usr/bin/g++" []] _ (eq_refl _)).
Defined.

(** Every job is either reused from the cache or sent to the analyzer:
    [found_cached] plus the number of analyzer runs is the number of jobs. *)
Theorem execute_jobs_hits_plus_runs {M : Type} (an : nat -> job -> option M)
    (cache0 : gmap string M) (js : list job) (s : state) :
  execute_jobs an cache0 js = Some s ->
  found_cached s + n_calls s = length js.
Proof. intros H. rewrite (run_jobs_count an _ _ _ H). reflexivity. Qed.

Lemma execute_jobs_hits_plus_runs_witness :
  exists s, execute_jobs (fun n _ => Some n) ∅
      [mk_job "vector" "/usr/bin/g++" []; mk_job "map" "/usr/bin/g++" []; mk_job "vector" "/usr/bin/g++" []]
    = Some s
  /\ found_cached s + n_calls s = 3.
Proof.
  eexists. split; [vm_compute; reflexivity|].
  exact (execute_jobs_hits_plus_runs (fun n _ => Some n) ∅
    [mk_job "vector" "/usr/bin/g++" []; mk_job "map" "/usr/bin/g++" []; mk_job "vector" "/usr/bin/g++" []]
    _ (eq_refl _)).
Defined.

(** Every entry of the output carries exactly the result that the final
    cache stores under its job's key. *)
Theorem execute_jobs_results_from_cache {M : Type} (an : nat -> job -> option M)
    (cache0 : gmap string M) (js : list job) (s : state) :
  execute_jobs an cache0 js = Some s ->
  forall e, In e (out s) -> job_cache s !! cache_key (ej_job e) = Some (ej_metrics e).
Proof. intros H. apply (run_jobs_out_in_cache an (initial_state cache0) _ js); [intros e []|exact H]. Qed.

Lemma execute_jobs_results_from_cache_witness :
  exists s, execute_jobs (fun n _ => Some n) ∅
      [mk_job "vector" "/usr/bin/g++" []; mk_job "map" "/usr/bin/g++" []] = Some s
  /\ forall e, In e (out s) -> job_cache s !! cache_key (ej_job e) = Some (ej_metrics e).
Proof.
  eexists. split; [vm_compute; reflexivity|].
  exact (execute_jobs_results_from_cache (fun n _ => Some n) ∅
    [mk_job "vector" "/usr/bin/g++" []; mk_job "map" "/usr/bin/g++" []] _ (eq_refl _)).
Defined.

(** The keys of the final cache are those of the cache read at start and
    those of the jobs, and the entries read at start are kept unchanged. *)
Theorem execute_jobs_cache_keys {M : Type} (an : nat -> job -> option M)
    (cache0 : gmap string M) (js : list job) (s : state) :
  execute_jobs an cache0 js = Some s ->
  (forall k, job_cache s !! k <> None <-> cache0 !! k <> None \/ In k (map cache_key js))
  /\ cache0 ⊆ job_cache s.
Proof.
  intros H. split.
  - exact (proj1 (run_jobs_keys an _ _ _ H)).
  - exact (proj1 (run_jobs_grows an _ _ _ H)).
Qed.

Lemma execute_jobs_cache_keys_witness :
  exists s, execute_jobs (fun n _ => Some n) (<["vector:/usr/bin/g++" := 7]> ∅)
      [mk_job "vector" "/usr/bin/g++" []; mk_job "map" "/usr/bin/g++" []] = Some s
  /\ (forall k, job_cache s !! k <> None <->
        (<["vector:/usr/bin/g++" := 7]> ∅ : gmap string nat) !! k <> None
        \/ In k (map cache_key [mk_job "vector" "/usr/bin/g++" []; mk_job "map" "/usr/bin/g++" []]))
  /\ (<["vector:/usr/bin/g++" := 7]> ∅ : gmap string nat) ⊆ job_cache s.
Proof.
  eexists. split; [vm_compute; reflexivity|].
  exact (execute_jobs_cache_keys (fun n _ => Some n) (<["vector:/usr/bin/g++" := 7]> ∅)
    [mk_job "vector" "/usr/bin/g++" []; mk_job "map" "/usr/bin/g++" []] _ (eq_refl _)).
Defined.

(** The analyzer runs once for each distinct key of the jobs that is not in
    the cache read at start, and for no other key. *)
Theorem execute_jobs_analyzer_runs {M : Type} (an : nat -> job -> option M)
    (cache0 : gmap string M) (js : list job) (s : state) :
  execute_jobs an cache0 js = Some s ->
  List.NoDup (measured_keys (events s))
  /\ (forall k, In k (measured_keys (events s)) <-> In k (map cache_key js) /\ cache0 !! k = None)
  /\ n_calls s = length (measured_keys (events s)).
Proof.
  intros H. destruct (run_jobs_keys an _ _ _ H) as [_ (new & Hm & Hnd & Hin & Hn)].
  simpl in Hm, Hn. rewrite Hm. split; [exact Hnd|]. split; [|exact Hn].
  intros k. rewrite Hin. tauto.
Qed.

Lemma execute_jobs_analyzer_runs_witness :
  exists s, execute_jobs (fun n _ => Some n) ∅
      [mk_job "vector" "/usr/bin/g++" []; mk_job "map" "/usr/bin/g++" []; mk_job "vector" "/usr/bin/g++" []]
    = Some s
  /\ List.NoDup (measured_keys (events s))
  /\ (forall k, In k (measured_keys (events s)) <->
        In k (map cache_key [mk_job "vector" "/usr/bin/g++" []; mk_job "map" "/usr/bin/g++" [];
                             mk_job "vector" "/usr/bin/g++" []])
        /\ (∅ : gmap string nat) !! k = None)
  /\ n_calls s = length (measured_keys (events s)).
Proof.
  eexists. split; [vm_compute; reflexivity|].
  exact (execute_jobs_analyzer_runs (fun n _ => Some n) ∅
    [mk_job "vector" "/usr/bin/g++" []; mk_job "map" "/usr/bin/g++" []; mk_job "vector" "/usr/bin/g++" []]
    _ (eq_refl _)).
Defined.

(** After a complete run the cache file is untouched (and the cache is the
    one read at start) when no job was sent to the analyzer; otherwise it
    holds exactly the final cache. *)
Theorem execute_jobs_final_file {M : Type} (an : nat -> job -> option M)
    (cache0 : gmap string M) (js : list job) (s : state) (d0 : cache_file M) :
  execute_jobs an cache0 js = Some s ->
  (measured_keys (events s) = [] -> file_after d0 (events s) = d0 /\ job_cache s = cache0)
  /\ (measured_keys (events s) <> [] -> file_after d0 (events s) = CacheFile (job_cache s)).
Proof.
  intros H.
  assert (H0 : file_state d0 cache0 (initial_state cache0)) by (left; repeat split).
  destruct (run_jobs_file an d0 cache0 _ _ _ H0 H) as [(Hm & Hf & Hc) | (Hm & Hf)].
  - split; [intros _; now split|congruence].
  - split; [congruence|intros _; exact Hf].
Qed.

Lemma execute_jobs_final_file_witness :
  exists s, execute_jobs (fun n _ => Some n) (<["vector:/usr/bin/g++" := 7]> ∅)
      [mk_job "vector" "/usr/bin/g++" []] = Some s
  /\ (measured_keys (events s) = [] ->
        file_after (CacheFile (<["vector:/usr/bin/g++" := 7]> ∅)) (events s)
        = CacheFile (<["vector:/usr/bin/g++" := 7]> ∅)
        /\ job_cache s = <["vector:/usr/bin/g++" := 7]> ∅)
  /\ (measured_keys (events s) <> [] ->
        file_after (CacheFile (<["vector:/usr/bin/g++" := 7]> ∅)) (events s) = CacheFile (job_cache s)).
Proof.
  eexists. split; [vm_compute; reflexivity|].
  exact (execute_jobs_final_file (fun n _ => Some n) (<["vector:/usr/bin/g++" := 7]> ∅)
    [mk_job "vector" "/usr/bin/g++" []] _ (CacheFile (<["vector:/usr/bin/g++" := 7]> ∅)) (eq_refl _)).
Defined.

(** Running the same jobs again from the final cache, with any analyzer,
    starts no analyzer run, finds every job in the cache, leaves the cache
    as it is and gives the same output list. *)
Theorem execute_jobs_rerun {M : Type} (an : nat -> job -> option M)
    (cache0 : gmap string M) (js : list job) (s : state) :
  execute_jobs an cache0 js = Some s ->
  forall an' : nat -> job -> option M,
    exists s2, execute_jobs an' (job_cache s) js = Some s2
      /\ n_calls s2 = 0 /\ found_cached s2 = length js
      /\ job_cache s2 = job_cache s /\ out s2 = out s.
Proof.
  intros H an'.
  destruct (run_jobs_all_hits an' (initial_state (job_cache s)) js) as (s2 & H2 & Hn & Hf & Hc).
  { intros j Hj. simpl. apply (proj1 (run_jobs_keys an _ _ _ H)). right. now apply in_map. }
  exists s2. split; [exact H2|]. simpl in Hn, Hf, Hc. split; [exact Hn|]. split; [exact Hf|].
  split; [exact Hc|].
  destruct (run_jobs_out an _ _ _ H) as (A1 & A2 & A3).
  destruct (run_jobs_out an' _ _ _ H2) as (B1 & B2 & B3).
  apply (enriched_list_eq (job_cache s)).
  - simpl in A1, B1. congruence.
  - simpl in A2, B2. congruence.
  - apply B3. intros e [].
  - apply A3. intros e [].
  - rewrite <- Hc. apply (run_jobs_out_in_cache an' (initial_state (job_cache s)) _ js); [intros e []|exact H2].
  - apply (run_jobs_out_in_cache an (initial_state cache0) _ js); [intros e []|exact H].
Qed.

Lemma execute_jobs_rerun_witness :
  exists s, execute_jobs (fun n _ => Some n) ∅
      [mk_job "vector" "/usr/bin/g++" []; mk_job "map" "/usr/bin/g++" []] = Some s
  /\ exists s2, execute_jobs (fun _ _ => None) (job_cache s)
      [mk_job "vector" "/usr/bin/g++" []; mk_job "map" "/usr/bin/g++" []] = Some s2
      /\ n_calls s2 = 0 /\ found_cached s2 = 2
      /\ job_cache s2 = job_cache s /\ out s2 = out s.
Proof.
  eexists. split; [vm_compute; reflexivity|].
  exact (execute_jobs_rerun (fun n _ => Some n) ∅
    [mk_job "vector" "/usr/bin/g++" []; mk_job "map" "/usr/bin/g++" []] _ (eq_refl _) (fun _ _ => None)).
Defined.

(** Between two jobs (whatever comes next: the process being killed, or
    the analyzer failing on the next job), the cache file loads back to
    exactly the cache held in memory, so a new start reuses every result
    computed so far. *)
Theorem cache_file_matches_memory {M : Type} (an : nat -> job -> option M)
    (d0 : cache_file M) (cache0 : gmap string M) (pre : list job) (s : state) :
  load_cache d0 = Some cache0 ->
  execute_jobs an cache0 pre = Some s ->
  load_cache (file_after d0 (events s)) = Some (job_cache s).
Proof.
  intros Hl H.
  assert (H0 : file_state d0 cache0 (initial_state cache0)) by (left; repeat split).
  destruct (run_jobs_file an d0 cache0 _ _ _ H0 H) as [(_ & -> & ->) | (_ & ->)];
    [exact Hl|reflexivity].
Qed.

Lemma cache_file_matches_memory_witness :
  load_cache (M:=nat) NoCacheFile = Some ∅
  /\ exists s, execute_jobs (fun n _ => Some n) ∅
      [mk_job "vector" "/usr/bin/g++" []; mk_job "map" "/usr/bin/g++" []] = Some s
  /\ load_cache (file_after NoCacheFile (events s)) = Some (job_cache s).
Proof.
  split; [reflexivity|].
  eexists. split; [vm_compute; reflexivity|].
  exact (cache_file_matches_memory (fun n _ => Some n) NoCacheFile ∅
    [mk_job "vector" "/usr/bin/g++" []; mk_job "map" "/usr/bin/g++" []] _ eq_refl (eq_refl _)).
Defined.

End JobsProps.

(* ================================================================== *)
(** ** More facts about the timing loop *)

Module SamplerFacts2.
Import Sampler SamplerFacts.

(** How the loop ends by the exception: the smallest sample is [0]. *)
Lemma sample_loop_zero (dur : nat -> Q) (fuel : nat) (ts0 ts : list Q) :
  sample_loop dur fuel ts0 = ZeroDivision ts -> (nth 0 ts 0 == 0)%Q /\ 8 <= length ts.
Proof.
  revert ts0. induction fuel as [|fuel IH]; intros ts0 H; [discriminate|].
  cbn [sample_loop] in H.
  destruct (Nat.ltb_spec 20 (length ts0)); [discriminate|].
  destruct (Nat.leb_spec 8 (length ts0)); [|exact (IH _ H)].
  unfold ratio_check in H.
  destruct (Qeq_bool (nth 0 (sort_q ts0) 0%Q) 0) eqn:E0.
  - injection H as <-. split; [now apply Qeq_bool_iff|now rewrite length_sort_q].
  - destruct (float_lt _ _); [discriminate|exact (IH _ H)].
Qed.

Lemma length_observed (dur : nat -> Q) (n : nat) : length (observed dur n) = n.
Proof. unfold observed. now rewrite length_map, length_seq. Qed.

(** Below 8 samples the loop only runs the invocation. *)
Lemma sample_loop_first_8 (dur : nat -> Q) (k m f : nat) :
  m + k = 8 -> sample_loop dur (k + f) (observed dur m) = sample_loop dur f (observed dur 8).
Proof.
  revert m. induction k as [|k IH]; intros m Hm.
  - simpl. now replace m with 8 by lia.
  - cbn [Nat.add sample_loop]. destruct (Nat.ltb_spec 20 (length (observed dur m))) as [Hl|_];
      [rewrite length_observed in Hl; lia|].
    destruct (Nat.leb_spec 8 (length (observed dur m))) as [Hl|_];
      [rewrite length_observed in Hl; lia|].
    rewrite length_observed, <- observed_S. apply IH. lia.
Qed.

(** With non-negative durations and a [0] among the first 8, the first
    ratio test divides by [0]. *)
Lemma sample_loop_zero_early (dur : nat -> Q) :
  (forall i, 0 <= dur i)%Q -> (exists i : nat, (i < 8)%nat /\ (dur i == 0)%Q) ->
  sample_loop dur sample_fuel [] = ZeroDivision (sort_q (observed dur 8)).
Proof.
  intros Hnn (i & Hi & Hz).
  change (sample_loop dur sample_fuel []) with (sample_loop dur (8 + 14) (observed dur 0)).
  rewrite (sample_loop_first_8 dur 8 0 14 eq_refl).
  cbn [sample_loop]. rewrite length_observed. simpl Nat.ltb. simpl Nat.leb.
  unfold ratio_check.
  assert (Hmin : Qeq_bool (nth 0 (sort_q (observed dur 8)) 0%Q) 0 = true).
  { destruct (sort_q (observed dur 8)) as [|v r] eqn:E.
    { apply (f_equal (@length Q)) in E. rewrite length_sort_q, length_observed in E. discriminate. }
    destruct (sort_q_head_min (observed dur 8) v) as [Hin Hle]; [now rewrite E|].
    simpl. apply Qeq_bool_iff.
    assert (Hx : In (dur i) (observed dur 8)) by (apply in_map, in_seq; lia).
    apply Hle in Hx. unfold observed in Hin. apply in_map_iff in Hin as (k & <- & _).
    pose proof (Hnn k). apply Qle_antisym; [rewrite <- Hz; exact Hx|assumption]. }
  now rewrite Hmin.
Qed.

End SamplerFacts2.

(* ================================================================== *)
(** ** More facts about the symbol loop *)

Module SymbolFacts2.
Import Text Symbols SymbolSums SetupFacts.
Local Open Scope Z_scope.

Lemma span_app (p : ascii -> bool) (a b : string) :
  forallb p (list_ascii_of_string a) = true ->
  (b = EmptyString \/ exists c b', b = String c b' /\ p c = false) ->
  span p (a +:+ b) = (a, b).
Proof.
  intros Ha Hb. induction a as [|x a IH]; simpl in *.
  - destruct Hb as [-> | (c & b' & -> & Hc)]; simpl; [reflexivity|now rewrite Hc].
  - apply andb_true_iff in Ha as [Hx Ha]. rewrite Hx, (IH Ha). reflexivity.
Qed.

Lemma append_nil_l (s : string) : EmptyString +:+ s = s.
Proof. reflexivity. Qed.

Lemma splitlines_cons (x : ascii) (y : string) :
  splitlines (String x y)
  = if is_line_boundary x then
      EmptyString ::
        splitlines (if Ascii.eqb x CR then
                      match y with
                      | String d r => if Ascii.eqb d LF then r else y
                      | EmptyString => y
                      end
                    else y)
    else match splitlines y with
         | [] => [String x EmptyString]
         | l :: ls => String x l :: ls
         end.
Proof. reflexivity. Qed.

Lemma splitlines_nonempty (x : ascii) (y : string) : splitlines (String x y) <> [].
Proof.
  rewrite splitlines_cons. destruct (is_line_boundary x); [discriminate|].
  destruct (splitlines y); discriminate.
Qed.

(** Joining two texts with ["\n"] joins their lines, when the first one is
    not empty and does not end on a line boundary. *)
Lemma splitlines_join (a : string) (c : ascii) (b : string) :
  is_line_boundary c = false ->
  splitlines ((a +:+ String c EmptyString) +:+ String LF b)
  = splitlines (a +:+ String c EmptyString) ++ splitlines b.
Proof.
  intros Hc. remember (String.length a) as n eqn:Hn.
  revert a Hn. induction n as [n IH] using lt_wf_ind. intros a Hn.
  destruct a as [|x r].
  - rewrite !append_nil_l, append_cons, append_nil_l, !splitlines_cons, Hc. simpl. reflexivity.
  - rewrite !append_cons, !splitlines_cons.
    destruct (is_line_boundary x) eqn:Hx.
    + destruct (Ascii.eqb x CR) eqn:Ecr.
      * destruct r as [|d r2].
        -- rewrite !append_nil_l, append_cons, append_nil_l.
           assert (Ec : Ascii.eqb c LF = false)
             by (destruct (Ascii.eqb c LF) eqn:E; [apply Ascii.eqb_eq in E; subst c; discriminate|reflexivity]).
           rewrite Ec. simpl app.
           pose proof (IH 0%nat ltac:(simpl in Hn; lia) EmptyString eq_refl) as H0.
           rewrite !append_nil_l, append_cons, append_nil_l in H0. rewrite H0. reflexivity.
        -- rewrite !append_cons. destruct (Ascii.eqb d LF) eqn:Ed.
           ++ simpl in Hn. rewrite (IH (String.length r2) ltac:(lia) r2 eq_refl). reflexivity.
           ++ rewrite <- !append_cons.
              simpl in Hn. rewrite (IH (String.length (String d r2)) ltac:(simpl; lia) (String d r2) eq_refl).
              reflexivity.
      * simpl in Hn. rewrite (IH (String.length r) ltac:(lia) r eq_refl). reflexivity.
    + simpl in Hn. rewrite (IH (String.length r) ltac:(lia) r eq_refl).
      destruct (splitlines (r +:+ String c EmptyString)) as [|l ls] eqn:E.
      * destruct r; [rewrite append_nil_l in E|rewrite append_cons in E]; exfalso; eapply splitlines_nonempty; exact E.
      * reflexivity.
Qed.

Lemma classify_lines_app (acc : sym_counts) (l1 l2 : list string) :
  classify_lines acc (l1 ++ l2)
  = match classify_lines acc l1 with inl e => inl e | inr a => classify_lines a l2 end.
Proof.
  revert acc. induction l1 as [|l l1 IH]; intros acc; simpl; [reflexivity|].
  destruct (match_symbol_line l) as [[st sn]|]; [|reflexivity].
  destruct (classify st); [apply IH|reflexivity].
Qed.

Lemma add_symbol_add_counts (k : sym_class) (len : Z) (a b : sym_counts) :
  add_symbol k len (add_counts a b) = add_counts a (add_symbol k len b).
Proof. destruct a, b, k; unfold add_counts; simpl; f_equal; lia. Qed.

Lemma classify_lines_shift (a b : sym_counts) (ls : list string) :
  classify_lines (add_counts a b) ls
  = match classify_lines b ls with inl e => inl e | inr c => inr (add_counts a c) end.
Proof.
  revert b. induction ls as [|l ls IH]; intros b; cbn [classify_lines]; [reflexivity|].
  destruct (match_symbol_line l) as [[st sn]|]; [|reflexivity].
  destruct (classify st); [|reflexivity].
  rewrite add_symbol_add_counts. apply IH.
Qed.

Lemma add_counts_zero_r (a : sym_counts) : add_counts a zero_counts = a.
Proof. destruct a; unfold add_counts; simpl; f_equal; lia. Qed.

End SymbolFacts2.

(* ================================================================== *)
(** ** Properties of [measure_time] *)

Module SamplerProps.
Import Sampler SamplerFacts SamplerFacts2.

(** Whatever the durations, the loop ends after at most 21 timed
    executions of the invocation. *)
Theorem measure_time_at_most_21_runs (dur : nat -> Q) :
  exists n, executions (sample_loop dur sample_fuel []) = Some n /\ n <= 21.
Proof.
  destruct (sample_loop_ends dur) as (ts & [H|H] & Hb & _);
    rewrite H; exists (length ts); simpl; split; reflexivity || lia.
Qed.

(** With non-negative durations, a duration of [0] among the first 8 makes
    the first ratio test divide by zero: the invocation is run exactly 8
    times and [measure_time] raises. *)
Theorem measure_time_zero_duration (dur : nat -> Q) :
  (forall i, 0 <= dur i)%Q -> (exists i : nat, i < 8 /\ (dur i == 0)%Q) ->
  measure_time dur = None /\ executions (sample_loop dur sample_fuel []) = Some 8.
Proof.
  intros Hnn Hz. unfold measure_time.
  rewrite (sample_loop_zero_early dur Hnn Hz). split; [reflexivity|].
  cbn [executions]. now rewrite length_sort_q, length_observed.
Qed.

Lemma measure_time_zero_duration_witness :
  measure_time (fun i => if Nat.eqb i 3 then 0%Q else 1%Q) = None
  /\ executions (sample_loop (fun i => if Nat.eqb i 3 then 0%Q else 1%Q) sample_fuel []) = Some 8.
Proof.
  apply measure_time_zero_duration.
  - intros i. destruct (Nat.eqb i 3); vm_compute; discriminate.
  - exists 3. split; [lia|vm_compute; reflexivity].
Defined.

(** [measure_time] raises only when one of the executions it ran took
    [0]. *)
Theorem measure_time_none_zero (dur : nat -> Q) :
  measure_time dur = None ->
  exists n i, executions (sample_loop dur sample_fuel []) = Some n /\ i < n /\ (dur i == 0)%Q.
Proof.
  intros Hm. unfold measure_time in Hm.
  destruct (sample_loop_ends dur) as (ts & [H|H] & Hb & Hp); rewrite H in Hm.
  - destruct (sort_q ts) as [|a r] eqn:E; [|discriminate].
    apply (f_equal (@length Q)) in E. rewrite length_sort_q in E. simpl in E. lia.
  - destruct (sample_loop_zero dur sample_fuel [] ts H) as [Hz _].
    assert (Hin : In (nth 0 ts 0%Q) ts) by (apply nth_In; lia).
    apply (Permutation_in _ Hp) in Hin. unfold observed in Hin.
    apply in_map_iff in Hin as (k & Hk & Hk').
    apply in_seq in Hk'.
    exists (length ts), k. rewrite H. split; [reflexivity|]. split; [lia|].
    now rewrite Hk.
Qed.

Lemma measure_time_none_zero_witness :
  exists n i, executions (sample_loop (fun _ => 0%Q) sample_fuel []) = Some n /\ i < n
    /\ ((fun _ : nat => 0%Q) i == 0)%Q.
Proof. apply measure_time_none_zero. vm_compute. reflexivity. Defined.

End SamplerProps.

(* ================================================================== *)
(** ** Properties of the [nm] parser *)

Module SymbolProps.
Import Text Symbols SymbolSums SetupFacts SymbolFacts2.

(** A line made of an alphanumeric value, one or more spaces, a word
    character, a space and a non-empty name without ["\n"] is matched, and
    its groups are that character and that name. *)
Theorem match_symbol_line_fields (v sp sn : string) (st : ascii) :
  forallb is_alnum (list_ascii_of_string v) = true ->
  forallb is_space (list_ascii_of_string sp) = true ->
  is_word st = true -> sn <> EmptyString -> has_char (Ascii.eqb LF) sn = false ->
  match_symbol_line (v +:+ (String " " sp +:+ String st (String " " sn))) = Some (st, sn).
Proof.
  intros Hv Hsp Hst Hsn Hlf. unfold match_symbol_line.
  rewrite append_cons.
  rewrite (span_app is_alnum v _ Hv) by (right; eexists _, _; split; reflexivity).
  cbn iota. replace (is_space " ") with true by reflexivity.
  assert (Hs : is_space st = false).
  { destruct (is_space st) eqn:E; [|reflexivity].
    unfold is_space in E. apply Ascii.eqb_eq in E. subst st. discriminate. }
  rewrite (span_app is_space sp _ Hsp) by (right; eexists _, _; split; [reflexivity|exact Hs]).
  cbn iota. rewrite Hst, Hlf.
  destruct sn as [|x sn]; [contradiction|reflexivity].
Qed.

Lemma match_symbol_line_fields_witness :
  match_symbol_line ("0000000000001130" +:+ (String " " "" +:+ String "T" (String " " "main")))
  = Some ("T"%char, "main").
Proof.
  apply match_symbol_line_fields; [reflexivity|reflexivity|reflexivity|discriminate|reflexivity].
Defined.

(** The counts of two [nm] dumps joined by ["\n"] are the sums of their
    counts (the first one not empty and not ending on a line boundary); if
    either dump has a line that fails, the joined dump fails on the first
    such line. *)
Theorem symbol_stats_join (a : string) (c : ascii) (b : string) :
  is_line_boundary c = false ->
  symbol_stats ((a +:+ String c EmptyString) +:+ String LF b)
  = match symbol_stats (a +:+ String c EmptyString), symbol_stats b with
    | inr ca, inr cb => inr (add_counts ca cb)
    | inl e, _ => inl e
    | inr _, inl e => inl e
    end.
Proof.
  intros Hc. unfold symbol_stats. rewrite (splitlines_join a c b Hc), classify_lines_app.
  destruct (classify_lines zero_counts (splitlines (a +:+ String c EmptyString))) as [e|ca];
    [reflexivity|].
  rewrite <- (add_counts_zero_r ca) at 1. rewrite classify_lines_shift.
  destruct (classify_lines zero_counts (splitlines b)); reflexivity.
Qed.

Lemma symbol_stats_join_witness :
  symbol_stats (("0000 T fo" +:+ String "o" EmptyString) +:+ String LF "0000 U bar")
  = match symbol_stats ("0000 T fo" +:+ String "o" EmptyString), symbol_stats "0000 U bar" with
    | inr ca, inr cb => inr (add_counts ca cb)
    | inl e, _ => inl e
    | inr _, inl e => inl e
    end.
Proof. apply symbol_stats_join. reflexivity. Defined.

End SymbolProps.

(* ================================================================== *)
(** ** Properties of one run of the analyzer *)

Module EngineProps.
Import Sampler SamplerFacts2 Engine.

(** When the preprocessing, the compilation, [nm] and the baseline compile
    succeed, but one of the four timed invocations takes [0] in one of its
    first 8 runs (all durations non-negative), the run fails in
    [measure_time] and prints no result. *)
Theorem analyze_zero_duration (tc : toolchain) (out dump : string) (osize bsize : Z)
    (sc : Symbols.sym_counts) (dur : nat -> Q) :
  preprocessed tc = Some out -> object_bytes tc = Some osize -> nm_dump tc = Some dump ->
  Symbols.symbol_stats dump = inr sc -> baseline_object_bytes tc = Some bsize ->
  In dur [preproc_durations tc; compile_durations tc;
          preproc_base_durations tc; compile_base_durations tc] ->
  (forall i, 0 <= dur i)%Q -> (exists i : nat, i < 8 /\ (dur i == 0)%Q) ->
  analyze tc = inl TimingError.
Proof.
  intros Hp Ho Hd Hs Hb Hin Hnn Hz.
  assert (Hm : measure_time dur = None)
    by (unfold measure_time; now rewrite (sample_loop_zero_early dur Hnn Hz)).
  unfold analyze. rewrite Hp. destruct (LineCount.line_counts out).
  rewrite Ho, Hd, Hs, Hb.
  simpl in Hin. destruct Hin as [<-|[<-|[<-|[<-|[]]]]]; rewrite Hm;
    repeat match goal with |- context [measure_time ?d] => destruct (measure_time d) end;
    reflexivity.
Qed.

Lemma analyze_zero_duration_witness :
  analyze (mk_toolchain (Some "int main() {}") (Some 1232%Z) (Some "0000 T main") (Some 1064%Z)
             (fun _ => 1%Q) (fun i => if Nat.eqb i 0 then 0%Q else 2%Q)
             (fun _ => 1%Q) (fun _ => 1%Q)) = inl TimingError.
Proof.
  apply (analyze_zero_duration _ "int main() {}" "0000 T main" 1232%Z 1064%Z
           (Symbols.mk_sym_counts 0 0 0 0 1 4) (fun i => if Nat.eqb i 0 then 0%Q else 2%Q));
    try reflexivity.
  - simpl. right. left. reflexivity.
  - intros i. destruct (Nat.eqb i 0); vm_compute; discriminate.
  - exists 0. split; [lia|vm_compute; reflexivity].
Defined.

End EngineProps.
